(** * simple_fs.c: a read-only file system with a fixed three-entry catalog

    A shallow embedding of [simple_fs.c] and the properties of its inode
    resolver, directory operations, page read and module life cycle.

    Conventions of the embedding.
    - C integers are [Z]; where the source converts between widths the
      wrap-around is written out ([wrap_s32], [wrap_u64], ...).
    - A [char *] is a [char_ptr]: the address of one of the string literals
      of the translation unit ([rodata]) or NULL.  A [struct inode *] is an
      [inode_ptr]: NULL, an [ERR_PTR], or the inode hashed under a number
      in the superblock's inode cache, which is the shared store the
      functions mutate through the pointer.
    - A computation yields an [outcome]: a value, undefined behaviour of
      the C program ([Undef]: a read through an uninitialised, NULL or
      out-of-bounds pointer, a copy past the end of an object), or a call
      into the host that never returns ([Blocked]).
    - [pr_info] only appends to the kernel log, which none of the functions
      reads back; it is modelled in the module life cycle, where the log
      line is the only thing the two branches of [simplefs_init] differ in,
      and left out elsewhere.
    - Host functions ([iget_locked], [d_splice_alias], [dir_emit], [strcmp],
      [memcpy], [register_filesystem], ...) are modelled after their kernel
      contracts.  [simple_mount], which only hands [simplefs_fill_super]
      to the host's [mount_nodev], and [simplefs_kill_sb], which only logs,
      are not part of the embedding. *)

From Stdlib Require Import ZArith Lia Ascii String.
From Stdlib.Strings Require Import Byte.
From stdpp Require Import base option list gmap strings.

Open Scope Z_scope.

(** ** Outcomes of C computations *)

Inductive outcome (A : Type) : Type :=
  | Ret (a : A)      (* normal return *)
  | Undef            (* undefined behaviour *)
  | Blocked          (* a host call that waits for ever *)
  | OutOfFuel.       (* the embedding's loop budget ran out (never happens,
                        see [simplefs_readdir_total]) *)
Arguments Ret {A} a.
Arguments Undef {A}.
Arguments Blocked {A}.
Arguments OutOfFuel {A}.

#[global] Instance outcome_ret : MRet outcome := fun A a => Ret a.
#[global] Instance outcome_bind : MBind outcome := fun A B f m =>
  match m with
  | Ret a => f a
  | Undef => Undef
  | Blocked => Blocked
  | OutOfFuel => OutOfFuel
  end.

(** ** C integer conversions *)

Definition wrap_u64 (z : Z) : Z := z mod 2 ^ 64.
Definition wrap_s64 (z : Z) : Z := (z + 2 ^ 63) mod 2 ^ 64 - 2 ^ 63.
Definition wrap_s32 (z : Z) : Z := (z + 2 ^ 31) mod 2 ^ 32 - 2 ^ 31.

(** [!x] of C. *)
Definition lnot (x : Z) : bool := x =? 0.

(** ** Constants of the host headers *)

Definition DT_DIR : Z := 4.
Definition DT_REG : Z := 8.
Definition S_IFMT : Z := 61440.    (* 0170000 *)
Definition S_IFDIR : Z := 16384.   (* 0040000 *)
Definition S_IFREG : Z := 32768.   (* 0100000 *)
Definition S_IRUGO : Z := 292.     (* 0444 *)
Definition S_IWUGO : Z := 146.     (* 0222 *)
Definition S_IXUGO : Z := 73.      (* 0111 *)
Definition mode_0555 : Z := 5 * 64 + 5 * 8 + 5.
Definition mode_0444 : Z := 4 * 64 + 4 * 8 + 4.
Definition I_NEW : Z := 8.         (* 1 << 3 *)
Definition ENOMEM : Z := 12.
Definition EBUSY : Z := 16.
Definition PAGE_SIZE : Z := 4096.

(** ** C strings

    A string object is a [string] followed by its terminating NUL.  [peek]
    is [*s] read as an unsigned char, [advance] is [s + 1]. *)

Definition peek (s : string) : Z :=
  match s with
  | EmptyString => 0
  | String c _ => Z.of_N (N_of_ascii c)
  end.

Definition advance (s : string) : string :=
  match s with
  | EmptyString => EmptyString
  | String _ s' => s'
  end.

(** [strcmp] of the kernel's lib/string.c: -1, 0 or 1. *)
Fixpoint strcmp (cs ct : string) : Z :=
  let c1 := peek cs in
  let c2 := peek ct in
  if negb (c1 =? c2) then (if c1 <? c2 then -1 else 1)
  else if lnot c1 then 0
  else match cs with
       | EmptyString => 0
       | String _ cs' => strcmp cs' (advance ct)
       end.

Fixpoint strlen (s : string) : Z :=
  match s with
  | EmptyString => 0
  | String c s' => if lnot (peek s) then 0 else 1 + strlen s'
  end.

(** The bytes of a string object, terminator included. *)
Definition object_bytes (s : string) : list byte :=
  list_byte_of_string s ++ [x00].

(** A string free of NUL bytes: what it denotes as a C string is itself. *)
Fixpoint no_nul (s : string) : bool :=
  match s with
  | EmptyString => true
  | String c s' => negb (lnot (peek s)) && no_nul s'
  end.

(** ** String literals and pointers to them *)

Inductive char_ptr : Type :=
  | NULL_chr
  | StrLit (k : nat).   (* address of the k-th literal of [rodata] *)

(** The string literals of the translation unit that the catalog points
    to, in order of appearance (lines 24-26). *)
Definition rodata : list string :=
  [ "."; ""; ".."; ""; "message.txt"; "Hello World!" ]%string.

Definition load_str (p : char_ptr) : outcome string :=
  match p with
  | NULL_chr => Undef
  | StrLit k => match rodata !! k with
                | Some s => Ret s
                | None => Undef
                end
  end.

(** [memcpy] reads [n] bytes from the object [p] points to. *)
Definition load_bytes (p : char_ptr) (n : Z) : outcome (list byte) :=
  s ← load_str p;
  if n <=? Z.of_nat (length (object_bytes s))
  then Ret (take (Z.to_nat n) (object_bytes s))
  else Undef.

(** ** The catalog (lines 16-27) *)

Record Entry : Type := mkEntry {
  name : char_ptr;
  ino : Z;          (* unsigned long *)
  type : Z;         (* int *)
  content : char_ptr
}.

Definition Entries : list Entry :=
  [ mkEntry (StrLit 0) 1 DT_DIR (StrLit 1);
    mkEntry (StrLit 2) 1 DT_DIR (StrLit 3);
    mkEntry (StrLit 4) 2 DT_REG (StrLit 5) ].

(** [tbl[i]] for a C [int] index: out of bounds is undefined. *)
Definition load_entry (tbl : list Entry) (i : Z) : outcome Entry :=
  if i <? 0 then Undef
  else match tbl !! Z.to_nat i with
       | Some e => Ret e
       | None => Undef
       end.


(** ** Inodes and the superblock's inode cache *)

(** The operation tables an inode can point to. *)
Inductive file_operations : Type := no_open_fops | dir_fops | generic_ro_fops.
Inductive inode_operations : Type := empty_iops | dir_iops.
Inductive address_space_operations : Type := empty_aops | reg_aops.

Record inode : Type := mkInode {
  i_ino : Z;                                   (* unsigned long *)
  i_mode : Z;                                  (* umode_t *)
  i_size : Z;                                  (* loff_t *)
  i_blocks : Z;
  i_state : Z;
  i_fop : file_operations;
  i_op : inode_operations;
  i_private : char_ptr;                        (* void * *)
  a_ops : address_space_operations             (* i_mapping->a_ops *)
}.

Definition set_i_ino (v : Z) (i : inode) : inode :=
  mkInode v (i_mode i) (i_size i) (i_blocks i) (i_state i) (i_fop i) (i_op i)
          (i_private i) (a_ops i).
Definition set_i_mode (v : Z) (i : inode) : inode :=
  mkInode (i_ino i) v (i_size i) (i_blocks i) (i_state i) (i_fop i) (i_op i)
          (i_private i) (a_ops i).
Definition set_i_size (v : Z) (i : inode) : inode :=
  mkInode (i_ino i) (i_mode i) v (i_blocks i) (i_state i) (i_fop i) (i_op i)
          (i_private i) (a_ops i).
Definition set_i_blocks (v : Z) (i : inode) : inode :=
  mkInode (i_ino i) (i_mode i) (i_size i) v (i_state i) (i_fop i) (i_op i)
          (i_private i) (a_ops i).
Definition set_i_fop (v : file_operations) (i : inode) : inode :=
  mkInode (i_ino i) (i_mode i) (i_size i) (i_blocks i) (i_state i) v (i_op i)
          (i_private i) (a_ops i).
Definition set_i_op (v : inode_operations) (i : inode) : inode :=
  mkInode (i_ino i) (i_mode i) (i_size i) (i_blocks i) (i_state i) (i_fop i) v
          (i_private i) (a_ops i).
Definition set_i_private (v : char_ptr) (i : inode) : inode :=
  mkInode (i_ino i) (i_mode i) (i_size i) (i_blocks i) (i_state i) (i_fop i)
          (i_op i) v (a_ops i).
Definition set_a_ops (v : address_space_operations) (i : inode) : inode :=
  mkInode (i_ino i) (i_mode i) (i_size i) (i_blocks i) (i_state i) (i_fop i)
          (i_op i) (i_private i) v.

(** What the host's [alloc_inode] hands out, hashed under [n] and marked
    [I_NEW] by [iget_locked]. *)
Definition new_inode (n : Z) : inode :=
  mkInode n 0 0 0 I_NEW no_open_fops empty_iops NULL_chr empty_aops.

Inductive inode_ptr : Type :=
  | NULL_inode
  | ERR_PTR (err : Z)
  | InodeAt (n : Z).     (* the inode hashed under [n] in the cache *)

Definition is_NULL (p : inode_ptr) : bool :=
  match p with NULL_inode => true | _ => false end.

(** The superblock: its inode cache and, standing for the outcome of the
    host's [alloc_inode], the number of inodes the allocator can still
    hand out ([s_avail] is not a field of the kernel's struct). *)
Record super_block : Type := mkSb {
  s_inodes : gmap Z inode;
  s_avail : nat
}.

Definition load_inode (sb : super_block) (p : inode_ptr) : outcome inode :=
  match p with
  | InodeAt n => match s_inodes sb !! n with
                 | Some i => Ret i
                 | None => Undef
                 end
  | _ => Undef
  end.

(** [p->field = v], as an update [f] of the inode [p] points to. *)
Definition store (sb : super_block) (p : inode_ptr) (f : inode -> inode)
  : outcome super_block :=
  i ← load_inode sb p;
  match p with
  | InodeAt n => Ret (mkSb (<[n := f i]> (s_inodes sb)) (s_avail sb))
  | _ => Undef
  end.

(** The host's [iget_locked]: a cached inode is returned once [I_NEW] is
    cleared on it, and the call waits until then; otherwise a new inode is
    allocated, hashed and returned with [I_NEW] set, or NULL when the
    allocation fails. *)
Definition iget_locked (sb : super_block) (n : Z)
  : outcome (inode_ptr * super_block) :=
  match s_inodes sb !! n with
  | Some i =>
      if lnot (Z.land (i_state i) I_NEW) then Ret (InodeAt n, sb)
      else Blocked
  | None =>
      match s_avail sb with
      | O => Ret (NULL_inode, sb)
      | S k => Ret (InodeAt n, mkSb (<[n := new_inode n]> (s_inodes sb)) k)
      end
  end.

(** ** The identity resolver (lines 89-134) *)

(** The local [Entry *e]: declared without initialiser. *)
Inductive entry_ptr : Type :=
  | Indeterminate
  | EntryAt (k : Z).     (* &Entries[k] *)

Definition deref (tbl : list Entry) (e : entry_ptr) : outcome Entry :=
  match e with
  | Indeterminate => Undef
  | EntryAt k => load_entry tbl k
  end.

(** Lines 104-107: the two assignments to [e]. *)
Definition select_entry (e : entry_ptr) (n : Z) : entry_ptr :=
  let e := if n =? 1 then EntryAt 0 else e in
  let e := if n =? 2 then EntryAt 2 else e in
  e.

(** [n] is the parameter [ino] of the source ([ino] names the field of
    [Entry] here); [tbl] is the global [Entries], which the function reads. *)
Definition simplefs_iget (tbl : list Entry) (sb : super_block) (n : Z)
  : outcome (inode_ptr * super_block) :=
  let e := Indeterminate in
  '(inode, sb) ← iget_locked sb n;
  if is_NULL inode then Ret (ERR_PTR (- ENOMEM), sb) else
  i ← load_inode sb inode;
  if lnot (Z.land (i_state i) I_NEW) then Ret (inode, sb) else
  let e := select_entry e n in
  e_ ← deref tbl e;
  sb ← (if type e_ =? DT_DIR then
          sb ← store sb inode (set_i_mode (Z.lor S_IFDIR mode_0555));
          sb ← store sb inode (set_i_fop dir_fops);
          sb ← store sb inode (set_i_op dir_iops);
          sb ← store sb inode (set_i_size 512);
          store sb inode (set_i_ino n)
        else Ret sb);
  e_ ← deref tbl e;
  sb ← (if type e_ =? DT_REG then
          sb ← store sb inode (set_i_mode (Z.lor S_IFREG mode_0444));
          sb ← store sb inode (set_i_fop generic_ro_fops);
          s ← load_str (content e_);
          sb ← store sb inode (set_i_size (wrap_s64 (strlen s)));
          sb ← store sb inode (set_i_blocks 1);
          sb ← store sb inode (set_i_ino n);
          sb ← store sb inode (set_i_private (content e_));
          store sb inode (set_a_ops reg_aops)
        else Ret sb);
  Ret (inode, sb).

Definition empty_sb (avail : nat) : super_block := mkSb ∅ avail.

(** ** Directory operations *)

(** A counted loop [for (i = i0; i < bound; i++) body]. *)
Fixpoint for_loop {St : Type} (fuel : nat) (i bound : Z)
    (body : Z -> St -> outcome St) (s : St) : outcome St :=
  if i <? bound then
    match fuel with
    | O => OutOfFuel
    | S fuel' => s' ← body i s; for_loop fuel' (i + 1) bound body s'
    end
  else Ret s.

Record dentry : Type := mkDentry {
  d_name : string;        (* d_name.name, NUL-terminated by the host *)
  d_inode : inode_ptr
}.

Inductive dentry_ptr : Type :=
  | NULL_dentry
  | ERR_dentry (err : Z).

(** The host's [d_splice_alias]: an error pointer is passed on, a NULL inode
    makes the dentry negative ("no entry"), an inode is attached to the
    dentry; in the last two cases NULL is returned.  (The case of a
    directory inode that already has a disconnected alias is not modelled:
    this file system never creates one.) *)
Definition d_splice_alias (inode : inode_ptr) (d : dentry)
  : dentry_ptr * dentry :=
  match inode with
  | ERR_PTR err => (ERR_dentry err, d)
  | NULL_inode => (NULL_dentry, mkDentry (d_name d) NULL_inode)
  | InodeAt n => (NULL_dentry, mkDentry (d_name d) (InodeAt n))
  end.

(** Lines 163-175.  [sb] is [dir->i_sb]; the state of the loop is the local
    [inode] and the inode cache. *)
Definition lookup_body (tbl : list Entry) (d : dentry) (i : Z)
    (st : inode_ptr * super_block) : outcome (inode_ptr * super_block) :=
  let '(inode, sb) := st in
  e ← load_entry tbl i;
  s ← load_str (name e);
  if lnot (strcmp s (d_name d)) then
    e ← load_entry tbl i;
    simplefs_iget tbl sb (ino e)
  else Ret (inode, sb).

Definition simplefs_lookup (tbl : list Entry) (sb : super_block) (d : dentry)
  : outcome (dentry_ptr * dentry * super_block) :=
  let inode := NULL_inode in
  '(inode, sb) ← for_loop 3 0 3 (lookup_body tbl d) (inode, sb);
  Ret (d_splice_alias inode d, sb).

(** What [dir_emit] hands to the sink. *)
Record emission : Type := mkEmission {
  em_name : string;
  em_namelen : Z;
  em_offset : Z;
  em_ino : Z;
  em_type : Z
}.

(** [struct dir_context]: the sink's callback, the cursor, and the sink's
    own state (the structure the host embeds the context in). *)
Record dir_context (Sink : Type) : Type := mkCtx {
  actor : Sink -> emission -> Sink * bool;
  pos : Z;                                    (* loff_t *)
  sink : Sink
}.
Arguments mkCtx {Sink} actor pos sink.
Arguments actor {Sink} d.
Arguments pos {Sink} d.
Arguments sink {Sink} d.

Definition set_pos {Sink} (v : Z) (cxt : dir_context Sink) : dir_context Sink :=
  mkCtx (actor cxt) v (sink cxt).

(** The host's inline [dir_emit]: calls the actor with the current
    [ctx->pos] as the entry's offset. *)
Definition dir_emit {Sink} (cxt : dir_context Sink) (nm : string)
    (namelen ino_ type_ : Z) : bool * dir_context Sink :=
  let '(snk, ok) := actor cxt (sink cxt) (mkEmission nm namelen (pos cxt) ino_ type_) in
  (ok, mkCtx (actor cxt) (pos cxt) snk).

(** Lines 186-191.  [i] and [amount] are C [int]s that stay within 0..3;
    [cxt->pos++] wraps (the kernel is built with -fno-strict-overflow). *)
Fixpoint readdir_loop {Sink} (fuel : nat) (tbl : list Entry) (i amount : Z)
    (cxt : dir_context Sink) : outcome (Z * dir_context Sink) :=
  if i <? 3 then
    match fuel with
    | O => OutOfFuel
    | S fuel' =>
        let amount := amount + 1 in
        let cxt := set_pos (wrap_s64 (pos cxt + 1)) cxt in
        e ← load_entry tbl i;
        s ← load_str (name e);
        let '(ok, cxt) := dir_emit cxt s (wrap_s32 (strlen s)) (ino e) (type e) in
        if negb ok then Ret (amount, cxt)
        else readdir_loop fuel' tbl (i + 1) amount cxt
    end
  else Ret (amount, cxt).

(** Lines 181-194.  Three iterations are all the loop can make: a negative
    [i] is undefined at its first [Entries[i]]. *)
Definition simplefs_readdir {Sink} (tbl : list Entry) (cxt : dir_context Sink)
  : outcome (Z * dir_context Sink) :=
  let amount := 0 in
  let i := wrap_s32 (pos cxt) in
  readdir_loop 3 tbl i amount cxt.

(** A sink with room for a bounded number of entries, as the buffer of a
    [getdents] call has: it takes entries while room is left. *)
Record bounded_sink : Type := mkSink {
  room : nat;
  taken : list emission
}.

Definition bounded_actor (b : bounded_sink) (em : emission)
  : bounded_sink * bool :=
  match room b with
  | O => (b, false)
  | S r => (mkSink r (taken b ++ [em]), true)
  end.

Definition bounded_ctx (p : Z) (r : nat) : dir_context bounded_sink :=
  mkCtx bounded_actor p (mkSink r []).

(** ** Page reads (lines 196-241) *)

Record page : Type := mkPage {
  index : Z;                    (* pgoff_t, unsigned long *)
  mapping_host : inode_ptr;     (* mapping->host *)
  data : list byte;             (* the memory at page_address(page) *)
  PG_uptodate : bool;
  PG_locked : bool
}.

(** A folio of one page: its index, mapping and flags are the page's. *)
Record folio : Type := mkFolio { folio_page : page }.

Definition SetPageUptodate (p : page) : page :=
  mkPage (index p) (mapping_host p) (data p) true (PG_locked p).
Definition unlock_page (p : page) : page :=
  mkPage (index p) (mapping_host p) (data p) (PG_uptodate p) false.
Definition set_data (bs : list byte) (p : page) : page :=
  mkPage (index p) (mapping_host p) bs (PG_uptodate p) (PG_locked p).
Definition folio_mark_uptodate (f : folio) : folio :=
  mkFolio (SetPageUptodate (folio_page f)).
Definition folio_unlock (f : folio) : folio :=
  mkFolio (unlock_page (folio_page f)).

(** [memcpy(dst, src, n)] into a buffer whose contents are [dst]: reading
    past the source object or writing past the buffer is undefined. *)
Definition memcpy (dst : list byte) (src : char_ptr) (n : Z)
  : outcome (list byte) :=
  bs ← load_bytes src n;
  if n <=? Z.of_nat (length dst) then Ret (bs ++ drop (Z.to_nat n) dst)
  else Undef.

(** Lines 222-240.  The comparison of the unsigned [page->index] with the
    signed [i_size] is made at unsigned 64 bits, and [memcpy] takes
    [i_size] as a [size_t]. *)
Definition simplefs_readpage (sb : super_block) (pg : page)
  : outcome (Z * page) :=
  inode ← load_inode sb (mapping_host pg);
  pg ← (if wrap_u64 (i_size inode) <? index pg then Ret pg
        else
          bs ← memcpy (data pg) (i_private inode) (wrap_u64 (i_size inode));
          Ret (set_data bs pg));
  let pg := SetPageUptodate pg in
  let pg := unlock_page pg in
  Ret (0, pg).

(** Lines 198-219. *)
Definition simplefs_read_folio (sb : super_block) (fl : folio)
  : outcome (Z * folio) :=
  inode ← load_inode sb (mapping_host (folio_page fl));
  fl ← (if wrap_u64 (i_size inode) <? index (folio_page fl) then Ret fl
        else
          let pg := folio_page fl in
          bs ← memcpy (data pg) (i_private inode) (wrap_u64 (i_size inode));
          Ret (mkFolio (set_data bs pg)));
  let fl := folio_mark_uptodate fl in
  let fl := folio_unlock fl in
  Ret (0, fl).

(** ** Module life cycle (lines 42, 243-262) *)

Module Lifecycle.

(** The host: the registered file system types, by name, and the log. *)
Record kernel : Type := mkKernel {
  file_systems : list string;
  klog : list string
}.

(** The module's static [ret] together with the host. *)
Record machine : Type := mkMachine {
  ret : Z;
  host : kernel
}.

Definition fs_name : string := "simplefs".

(** The host's [register_filesystem]: -EBUSY when the name is taken. *)
Definition register_filesystem (k : kernel) (nm : string) : Z * kernel :=
  if bool_decide (nm ∈ file_systems k) then (- EBUSY, k)
  else (0, mkKernel (file_systems k ++ [nm]) (klog k)).

Definition EINVAL : Z := 22.

Definition unregister_filesystem (k : kernel) (nm : string) : Z * kernel :=
  if bool_decide (nm ∈ file_systems k)
  then (0, mkKernel (filter (fun x => x ≠ nm) (file_systems k)) (klog k))
  else (- EINVAL, k).

(** [pr_info] appends a line to the log (the trailing newline of the
    messages is left out). *)
Definition pr_info (msg : string) (m : machine) : machine :=
  mkMachine (ret m) (mkKernel (file_systems (host m)) (klog (host m) ++ [msg])).

Definition simplefs_init (m : machine) : Z * machine :=
  let '(r, k) := register_filesystem (host m) fs_name in
  let m := mkMachine r k in
  let m := if lnot (ret m) then pr_info "filesystem module loaded" m
           else pr_info "filesystem module failed" m in
  (0, m).

Definition simplefs_exit (m : machine) : machine :=
  let m := if lnot (ret m)
           then mkMachine (ret m) (snd (unregister_filesystem (host m) fs_name))
           else m in
  pr_info "filesystem module unloaded" m.

End Lifecycle.

(** ** Notions the properties are stated with *)

Definition S_ISDIR (m : Z) : bool := Z.land m S_IFMT =? S_IFDIR.
Definition S_ISREG (m : Z) : bool := Z.land m S_IFMT =? S_IFREG.

(** An inode as the resolver leaves it when it materializes a new object
    for an identity of the static catalog. *)
Definition materialized (i : inode) : Prop :=
  ∃ sb0 n p sb,
    s_inodes sb0 !! n = None ∧
    simplefs_iget Entries sb0 n = Ret (p, sb) ∧
    load_inode sb p = Ret i.

(** The entry the resolver reads for an identity (lines 104-107, 113). *)
Definition find_by_identity (tbl : list Entry) (n : Z) : outcome Entry :=
  deref tbl (select_entry Indeterminate n).

(** The name resolution of [simplefs_lookup] (lines 169-173) without the
    call of the resolver: the entry whose identity the loop hands to
    [simplefs_iget] last, if any. *)
Definition find_body (tbl : list Entry) (nm : string) (i : Z)
    (found : option Entry) : outcome (option Entry) :=
  e ← load_entry tbl i;
  s ← load_str (name e);
  if lnot (strcmp s nm) then
    e ← load_entry tbl i;
    Ret (Some e)
  else Ret found.

Definition find_by_name (tbl : list Entry) (nm : string)
  : outcome (option Entry) :=
  for_loop 3 0 3 (find_body tbl nm) None.

(** Name to identity and back to a name. *)
Definition resolve_back (tbl : list Entry) (nm : string)
  : outcome (option string) :=
  r ← find_by_name tbl nm;
  match r with
  | None => Ret None
  | Some e1 =>
      e2 ← find_by_identity tbl (ino e1);
      s ← load_str (name e2);
      Ret (Some s)
  end.

(** The entries of a catalog whose name is byte for byte [nm], in catalog
    order. *)
Definition name_is (nm : string) (e : Entry) : bool :=
  match load_str (name e) with
  | Ret s => String.eqb s nm
  | _ => false
  end.

Definition matching (tbl : list Entry) (nm : string) : list Entry :=
  List.filter (name_is nm) tbl.

(** Resolving the identities of a list of entries one after the other,
    keeping the pointer obtained last. *)
Fixpoint resolve_each (tbl : list Entry) (es : list Entry)
    (st : inode_ptr * super_block) : outcome (inode_ptr * super_block) :=
  match es with
  | [] => Ret st
  | e :: es' =>
      st' ← simplefs_iget tbl (snd st) (ino e);
      resolve_each tbl es' st'
  end.

(** Lookup as the specification words it: the first matching entry, in
    catalog order, decides. *)
Definition lookup_first_match (tbl : list Entry) (sb : super_block)
    (d : dentry) : outcome (dentry_ptr * dentry * super_block) :=
  match matching tbl (d_name d) with
  | [] => Ret (d_splice_alias NULL_inode d, sb)
  | e :: _ =>
      '(p, sb') ← simplefs_iget tbl sb (ino e);
      Ret (d_splice_alias p d, sb')
  end.

(** A catalog all of whose names can be read and are free of NUL. *)
Definition readable_names (tbl : list Entry) : Prop :=
  ∀ e, e ∈ tbl → ∃ s, load_str (name e) = Ret s ∧ no_nul s = true.

(** A catalog in which the first and the last entry share the name
    "message.txt". *)
Definition Entries_dup : list Entry :=
  [ mkEntry (StrLit 4) 1 DT_DIR (StrLit 1);
    mkEntry (StrLit 2) 1 DT_DIR (StrLit 3);
    mkEntry (StrLit 4) 2 DT_REG (StrLit 5) ].

(** The inode the resolver builds for a directory entry, and for a regular
    entry with content pointer [c] of string length [len]. *)
Definition dir_inode (n : Z) : inode :=
  mkInode n (Z.lor S_IFDIR mode_0555) 512 0 I_NEW dir_fops dir_iops
          NULL_chr empty_aops.

Definition reg_inode (n : Z) (c : char_ptr) (len : Z) : inode :=
  mkInode n (Z.lor S_IFREG mode_0444) (wrap_s64 len) 1 I_NEW generic_ro_fops
          empty_iops c reg_aops.

(** The two inodes it builds from the static catalog. *)
Definition root_inode : inode := dir_inode 1.
Definition message_inode : inode := reg_inode 2 (StrLit 5) 12.

(** A cache that holds the materialized "message.txt", and a locked page of
    zeros mapped to it at page index [idx]. *)
Definition message_sb : super_block := mkSb {[ 2 := message_inode ]} 0.

Definition blank_page (idx : Z) : page :=
  mkPage idx (InodeAt 2) (replicate (Z.to_nat PAGE_SIZE) x00) false true.

(** ** Mount glue (lines 146-155) *)

(** What [simplefs_fill_super] works on: the superblock's inode cache, its
    [s_root] (NULL or the root dentry) and, standing for the outcome of the
    host's [d_alloc_anon], the number of dentries the host can still
    allocate. *)
Record mount : Type := mkMount {
  m_sb : super_block;
  s_root : option dentry;
  d_avail : nat
}.

(** The host's [iput] of the only reference to an inode while the
    superblock is not active yet: the inode is evicted from the cache and
    its memory goes back to the allocator. *)
Definition iput (sb : super_block) (p : inode_ptr) : outcome super_block :=
  _ ← load_inode sb p;
  match p with
  | InodeAt n => Ret (mkSb (delete n (s_inodes sb)) (S (s_avail sb)))
  | _ => Undef
  end.

(** The host's [d_make_root]: NULL for a NULL inode; otherwise it reads
    [root_inode->i_sb], allocates the root dentry "/" and attaches the
    inode to it, or, when that allocation fails, drops the inode and
    returns NULL. *)
Definition d_make_root (root_inode : inode_ptr) (m : mount)
  : outcome (option dentry * mount) :=
  if is_NULL root_inode then Ret (None, m) else
  _ ← load_inode (m_sb m) root_inode;
  match d_avail m with
  | S k =>
      Ret (Some (mkDentry "/" root_inode), mkMount (m_sb m) (s_root m) k)
  | O =>
      sb ← iput (m_sb m) root_inode;
      Ret (None, mkMount sb (s_root m) O)
  end.

Definition simplefs_fill_super (tbl : list Entry) (m : mount)
  : outcome (Z * mount) :=
  '(inode, sb) ← simplefs_iget tbl (m_sb m) 1;
  let m := mkMount sb (s_root m) (d_avail m) in
  '(root, m) ← d_make_root inode m;
  let m := mkMount (m_sb m) root (d_avail m) in
  match s_root m with
  | None => Ret (- ENOMEM, m)
  | Some _ => Ret (0, m)
  end.

(** ** Further notions *)

(** Every inode of the cache is hashed under its own number. *)
Definition cache_ok (sb : super_block) : Prop :=
  ∀ n i, s_inodes sb !! n = Some i → i_ino i = n.

(** What the static catalog hands to a sink, entry by entry: name, length
    of the name, offset (the cursor after the entry), identity and kind. *)
Definition listing : list emission :=
  [ mkEmission "." 1 1 1 DT_DIR;
    mkEmission ".." 2 2 1 DT_DIR;
    mkEmission "message.txt" 11 3 2 DT_REG ].

(** The state of a sink after it was offered a list of entries. *)
Definition feed {Sink} (act : Sink -> emission -> Sink * bool)
    (s : Sink) (ems : list emission) : Sink :=
  fold_left (fun s em => fst (act s em)) ems s.

(** A sink without bound, which takes every entry and keeps them in the
    order of arrival. *)
Definition collect_actor (got : list emission) (em : emission)
  : list emission * bool :=
  (got ++ [em], true).

Definition collect_ctx (p : Z) : dir_context (list emission) :=
  mkCtx collect_actor p [].

(** * Properties *)

(** ** Sanity checks of the embedding *)

Example strcmp_case : strcmp "message.txt" "Message.txt" = 1.
Proof. reflexivity. Qed.

Example strlen_content : strlen "Hello World!" = 12.
Proof. reflexivity. Qed.

Example iget_root :
  simplefs_iget Entries (empty_sb 8) 1 =
  Ret (InodeAt 1, mkSb {[ 1 := root_inode ]} 7).
Proof. vm_compute. reflexivity. Qed.

Example iget_message :
  simplefs_iget Entries (empty_sb 8) 2 =
  Ret (InodeAt 2, mkSb {[ 2 := message_inode ]} 7).
Proof. vm_compute. reflexivity. Qed.

Example readdir_complete :
  ∃ c1, simplefs_readdir Entries (bounded_ctx 0 8) = Ret (3, c1) ∧
        pos c1 = 3 ∧
        em_name <$> taken (sink c1) = ["."; ".."; "message.txt"]%string ∧
        simplefs_readdir Entries c1 = Ret (0, c1).
Proof. eexists. repeat (split; [reflexivity|]). reflexivity. Qed.

Example read_page_0 :
  ∃ pg', simplefs_readpage message_sb (blank_page 0) = Ret (0, pg') ∧
         take 12 (data pg') = list_byte_of_string "Hello World!" ∧
         drop 12 (data pg') = drop 12 (data (blank_page 0)) ∧
         PG_uptodate pg' = true ∧ PG_locked pg' = false.
Proof. eexists. repeat (split; [vm_compute; reflexivity|]). reflexivity. Qed.

Example lookup_message :
  simplefs_lookup Entries (empty_sb 8) (mkDentry "message.txt" NULL_inode) =
  Ret (NULL_dentry, mkDentry "message.txt" (InodeAt 2),
       mkSb {[ 2 := message_inode ]} 7).
Proof. vm_compute. reflexivity. Qed.

(** ** C strings *)

Section CStrings.

Lemma peek_cons_inj c1 c2 s1 s2 :
  peek (String c1 s1) = peek (String c2 s2) → c1 = c2.
Proof.
  simpl. intros H. apply N2Z.inj in H.
  rewrite <- (ascii_N_embedding c1), <- (ascii_N_embedding c2).
  now f_equal.
Qed.

Lemma peek_nonneg s : 0 <= peek s.
Proof. destruct s; simpl; lia. Qed.

(** On strings free of NUL, [strcmp] returns 0 exactly on equal strings:
    the comparison is byte-exact, hence case-sensitive. *)
Lemma strcmp_eq s : ∀ t,
  no_nul s = true → no_nul t = true → (strcmp s t = 0 ↔ s = t).
Proof.
  induction s as [|a s IH]; intros [|c t] Hs Ht.
  - simpl. tauto.
  - cbn [no_nul] in Ht. apply andb_prop in Ht as [Hc _].
    cbn [strcmp]. change (peek "") with 0.
    unfold lnot in Hc. apply negb_true_iff, Z.eqb_neq in Hc.
    pose proof (peek_nonneg (String c t)).
    destruct (0 =? peek (String c t)) eqn:E; [apply Z.eqb_eq in E; lia|].
    cbn [negb]. destruct (0 <? peek (String c t)); split; intros; discriminate.
  - cbn [no_nul] in Hs. apply andb_prop in Hs as [Ha _].
    cbn [strcmp]. change (peek "") with 0.
    unfold lnot in Ha. apply negb_true_iff, Z.eqb_neq in Ha.
    destruct (peek (String a s) =? 0) eqn:E; [apply Z.eqb_eq in E; lia|].
    cbn [negb]. destruct (peek (String a s) <? 0); split; intros; discriminate.
  - cbn [no_nul] in Hs, Ht.
    apply andb_prop in Hs as [Ha Hs]. apply andb_prop in Ht as [_ Ht].
    cbn [strcmp advance].
    destruct (peek (String a s) =? peek (String c t)) eqn:E; cbn [negb].
    + apply Z.eqb_eq in E. pose proof (peek_cons_inj _ _ _ _ E) as ->.
      apply negb_true_iff in Ha. rewrite Ha.
      rewrite (IH t Hs Ht). split; [now intros -> | now intros [= ->]].
    + apply Z.eqb_neq in E.
      split.
      * destruct (peek (String a s) <? peek (String c t)); discriminate.
      * intros [= -> ->]. now contradiction E.
Qed.

Lemma lnot_strcmp s t :
  no_nul s = true → no_nul t = true → lnot (strcmp s t) = String.eqb s t.
Proof.
  intros Hs Ht. unfold lnot.
  destruct (String.eqb_spec s t) as [->|Hne].
  - apply Z.eqb_eq. now apply strcmp_eq.
  - apply Z.eqb_neq. intros H. apply Hne. now apply (strcmp_eq s t).
Qed.

End CStrings.

(** ** Outcomes and the inode store *)

Lemma bind_Ret {A B} (f : A → outcome B) (a : A) : (Ret a ≫= f) = f a.
Proof. reflexivity. Qed.

Lemma load_inode_at sb n i :
  s_inodes sb !! n = Some i → load_inode sb (InodeAt n) = Ret i.
Proof. intros H. unfold load_inode. now rewrite H. Qed.

Lemma store_at m a n i f :
  m !! n = Some i →
  store (mkSb m a) (InodeAt n) f = Ret (mkSb (<[n := f i]> m) a).
Proof. intros H. unfold store, load_inode. cbn [s_inodes s_avail]. now rewrite H. Qed.

Lemma store_insert m a n i f :
  store (mkSb (<[n := i]> m) a) (InodeAt n) f = Ret (mkSb (<[n := f i]> m) a).
Proof.
  rewrite (store_at _ _ n i) by apply lookup_insert_eq.
  now rewrite insert_insert_eq.
Qed.

(** ** The resolver on a new identity *)

Ltac iget_start H :=
  unfold simplefs_iget, iget_locked; cbn [s_inodes s_avail];
  rewrite H; cbn [mbind outcome_bind is_NULL];
  try (rewrite (load_inode_at _ _ (new_inode _)) by apply lookup_insert_eq;
       cbn [mbind outcome_bind];
       change (lnot (Z.land (i_state (new_inode _)) I_NEW)) with false;
       cbv iota).

Lemma iget_nomem tbl m n :
  m !! n = None →
  simplefs_iget tbl (mkSb m 0) n = Ret (ERR_PTR (- ENOMEM), mkSb m 0).
Proof. intros H. now iget_start H. Qed.

Lemma iget_new_indeterminate tbl m a n :
  m !! n = None → n ≠ 1 → n ≠ 2 →
  simplefs_iget tbl (mkSb m (S a)) n = Undef.
Proof.
  intros H H1 H2. iget_start H.
  unfold select_entry.
  apply Z.eqb_neq in H1, H2. now rewrite H1, H2.
Qed.

Lemma iget_new_dir tbl m a n e :
  m !! n = None → find_by_identity tbl n = Ret e → type e = DT_DIR →
  simplefs_iget tbl (mkSb m (S a)) n =
  Ret (InodeAt n, mkSb (<[n := dir_inode n]> m) a).
Proof.
  intros H He Ht. iget_start H.
  unfold find_by_identity in He. rewrite He. cbn [mbind outcome_bind].
  rewrite Ht. change (DT_DIR =? DT_DIR) with true.
  change (DT_DIR =? DT_REG) with false. cbv iota.
  repeat (rewrite store_insert; cbn [mbind outcome_bind]).
  reflexivity.
Qed.

Lemma iget_new_reg tbl m a n e s :
  m !! n = None → find_by_identity tbl n = Ret e → type e = DT_REG →
  load_str (content e) = Ret s →
  simplefs_iget tbl (mkSb m (S a)) n =
  Ret (InodeAt n, mkSb (<[n := reg_inode n (content e) (strlen s)]> m) a).
Proof.
  intros H He Ht Hs. iget_start H.
  unfold find_by_identity in He. rewrite He. cbn [mbind outcome_bind].
  rewrite Ht. change (DT_REG =? DT_DIR) with false.
  change (DT_REG =? DT_REG) with true. cbv iota. cbn [mbind outcome_bind].
  rewrite Hs.
  repeat (rewrite store_insert; cbn [mbind outcome_bind]).
  reflexivity.
Qed.

Lemma load_str_strlen p s : load_str p = Ret s → 0 <= strlen s <= 12.
Proof.
  destruct p as [|k]; [discriminate|]. unfold load_str.
  do 6 (destruct k as [|k]; [intros [= <-]; vm_compute; split; discriminate|]).
  discriminate.
Qed.

Lemma wrap_s64_id z : - 2 ^ 63 <= z < 2 ^ 63 → wrap_s64 z = z.
Proof.
  intros H. unfold wrap_s64.
  rewrite Z.mod_small; lia.
Qed.

Lemma wrap_s32_id z : - 2 ^ 31 <= z < 2 ^ 31 → wrap_s32 z = z.
Proof.
  intros H. unfold wrap_s32.
  rewrite Z.mod_small; lia.
Qed.

Lemma wrap_s64_small z : 0 <= z <= 12 → wrap_s64 z = z.
Proof. intros H. apply wrap_s64_id. lia. Qed.

(** C5: when the resolver materializes a new object for identity [n], whose
    catalog entry is [e]: if [e] is a directory the object gets the
    directory mode with read and traverse but no write permission, size 512
    and the directory operations; if [e] is regular the object's size is the
    byte length of [e]'s content, it gets the regular-file operations, and
    its content pointer is [e]'s content pointer itself (the same address,
    nothing is copied).  For identity 2 of the static catalog the size is 12
    and the content reads "Hello World!". *)
Theorem iget_materializes (tbl : list Entry) (m : gmap Z inode) (a : nat)
    (n : Z) (e : Entry) :
  m !! n = None →
  find_by_identity tbl n = Ret e →
  (type e = DT_DIR →
   ∃ i, simplefs_iget tbl (mkSb m (S a)) n =
          Ret (InodeAt n, mkSb (<[n := i]> m) a) ∧
        S_ISDIR (i_mode i) = true ∧
        Z.land (i_mode i) S_IRUGO = S_IRUGO ∧
        Z.land (i_mode i) S_IXUGO = S_IXUGO ∧
        Z.land (i_mode i) S_IWUGO = 0 ∧
        i_size i = 512 ∧
        i_fop i = dir_fops ∧ i_op i = dir_iops) ∧
  (type e = DT_REG →
   ∀ s, load_str (content e) = Ret s →
   ∃ i, simplefs_iget tbl (mkSb m (S a)) n =
          Ret (InodeAt n, mkSb (<[n := i]> m) a) ∧
        S_ISREG (i_mode i) = true ∧
        i_size i = strlen s ∧
        i_fop i = generic_ro_fops ∧ a_ops i = reg_aops ∧
        i_private i = content e) ∧
  (tbl = Entries → n = 2 →
   ∃ i, simplefs_iget tbl (mkSb m (S a)) n =
          Ret (InodeAt n, mkSb (<[n := i]> m) a) ∧
        S_ISREG (i_mode i) = true ∧
        i_size i = 12 ∧
        load_str (i_private i) = Ret "Hello World!"%string).
Proof.
  intros Hm He. split; [|split].
  - intros Ht. exists (dir_inode n).
    split; [now apply (iget_new_dir tbl m a n e)|].
    now vm_compute.
  - intros Ht s Hs. exists (reg_inode n (content e) (strlen s)).
    split; [now apply (iget_new_reg tbl m a n e s)|].
    cbn [reg_inode i_mode i_size i_fop a_ops i_private].
    rewrite (wrap_s64_small _ (load_str_strlen _ _ Hs)).
    now vm_compute.
  - intros -> ->. exists message_inode.
    split; [|now vm_compute].
    apply (iget_new_reg Entries m a 2 (mkEntry (StrLit 4) 2 DT_REG (StrLit 5))
             "Hello World!" Hm); reflexivity.
Qed.

Lemma iget_materializes_witness :
  ∃ i, simplefs_iget Entries (mkSb ∅ 1) 2 =
         Ret (InodeAt 2, mkSb (<[2 := i]> ∅) 0) ∧
       S_ISREG (i_mode i) = true ∧
       i_size i = strlen "Hello World!" ∧
       i_fop i = generic_ro_fops ∧ a_ops i = reg_aops ∧
       i_private i = StrLit 5.
Proof.
  exact (proj1 (proj2 (iget_materializes Entries ∅ 0 2
                         (mkEntry (StrLit 4) 2 DT_REG (StrLit 5))
                         eq_refl eq_refl))
               eq_refl "Hello World!"%string eq_refl).
Defined.

(** C9: the resolver is defined on a new identity only when the identity is
    1 or 2.  The local entry pointer is assigned in the branches for 1 and
    for 2 alone; for any other identity it is still indeterminate when the
    kind dispatch reads through it, which is undefined behaviour whatever
    the catalog holds; for 1 and 2 the resolver returns. *)
Theorem iget_defined_only_for_1_2 (m : gmap Z inode) (a : nat) (n : Z) :
  m !! n = None →
  (select_entry Indeterminate n = Indeterminate ↔ n ≠ 1 ∧ n ≠ 2) ∧
  (n ≠ 1 ∧ n ≠ 2 → ∀ tbl, simplefs_iget tbl (mkSb m (S a)) n = Undef) ∧
  (n = 1 ∨ n = 2 →
   ∃ r, simplefs_iget Entries (mkSb m (S a)) n = Ret r).
Proof.
  intros Hm. split; [|split].
  - unfold select_entry.
    destruct (Z.eqb_spec n 1) as [->|H1]; [cbn; split; [discriminate|lia]|].
    destruct (Z.eqb_spec n 2) as [->|H2]; [split; [discriminate|lia]|].
    tauto.
  - intros [H1 H2] tbl. now apply iget_new_indeterminate.
  - intros [-> | ->].
    + eexists. now apply (iget_new_dir Entries m a 1
                            (mkEntry (StrLit 0) 1 DT_DIR (StrLit 1))).
    + eexists. now apply (iget_new_reg Entries m a 2
                            (mkEntry (StrLit 4) 2 DT_REG (StrLit 5))
                            "Hello World!").
Qed.

Lemma iget_defined_only_for_1_2_witness :
  simplefs_iget Entries (mkSb ∅ 1) 3 = Undef.
Proof.
  refine (proj1 (proj2 (iget_defined_only_for_1_2 ∅ 0 3 eq_refl)) _ Entries).
  split; discriminate.
Defined.

(** ** Materialized objects *)

Lemma materialized_inv i :
  materialized i → i = root_inode ∨ i = message_inode.
Proof.
  intros (sb0 & n & p & sb & Hm & Hi & Hl).
  destruct sb0 as [m [|a]]; cbn [s_inodes] in Hm.
  - rewrite iget_nomem in Hi by done. injection Hi as <- <-. discriminate.
  - destruct (decide (n = 1)) as [->|H1]; [|destruct (decide (n = 2)) as [->|H2]].
    + rewrite (iget_new_dir Entries m a 1
                 (mkEntry (StrLit 0) 1 DT_DIR (StrLit 1))) in Hi by done.
      injection Hi as <- <-.
      rewrite (load_inode_at _ _ (dir_inode 1)) in Hl by apply lookup_insert_eq.
      injection Hl as <-. now left.
    + rewrite (iget_new_reg Entries m a 2
                 (mkEntry (StrLit 4) 2 DT_REG (StrLit 5)) "Hello World!")
        in Hi by done.
      injection Hi as <- <-.
      rewrite (load_inode_at _ _ (reg_inode 2 (StrLit 5) 12)) in Hl
        by apply lookup_insert_eq.
      injection Hl as <-. now right.
    + rewrite iget_new_indeterminate in Hi by done. discriminate.
Qed.

Lemma materialized_regular_inv i :
  materialized i → S_ISREG (i_mode i) = true → i = message_inode.
Proof.
  intros [-> | ->]%materialized_inv; [discriminate | reflexivity].
Qed.

Lemma message_inode_materialized : materialized message_inode.
Proof.
  exists (empty_sb 1), 2, (InodeAt 2), (mkSb {[ 2 := message_inode ]} 0).
  split; [reflexivity|]. split; now vm_compute.
Qed.

(** ** Page reads *)

Lemma message_size_u64 : wrap_u64 (i_size message_inode) = 12.
Proof. reflexivity. Qed.

Lemma memcpy_message (buf : list byte) :
  12 <= Z.of_nat (length buf) →
  memcpy buf (i_private message_inode) 12 =
  Ret (list_byte_of_string "Hello World!" ++ drop 12 buf).
Proof.
  intros H. unfold memcpy. cbn [i_private message_inode reg_inode].
  change (load_bytes (StrLit 5) 12)
    with (Ret (list_byte_of_string "Hello World!")).
  cbn [mbind outcome_bind].
  apply Z.leb_le in H. now rewrite H.
Qed.

(** C1: a read of a page of a materialized regular object returns 0 and
    leaves the page marked up to date and unlocked, on the path that skips
    the copy as on the path that copies, in [simplefs_readpage] and in
    [simplefs_read_folio] alike; no input makes it return anything else. *)
Theorem read_marks_ready (sb : super_block) (pg : page) (i : inode) :
  load_inode sb (mapping_host pg) = Ret i →
  materialized i →
  S_ISREG (i_mode i) = true →
  Z.of_nat (length (data pg)) = PAGE_SIZE →
  (∃ pg', simplefs_readpage sb pg = Ret (0, pg') ∧
          PG_uptodate pg' = true ∧ PG_locked pg' = false) ∧
  (∃ fl', simplefs_read_folio sb (mkFolio pg) = Ret (0, fl') ∧
          PG_uptodate (folio_page fl') = true ∧
          PG_locked (folio_page fl') = false).
Proof.
  intros Hl Hmat Hreg Hlen.
  pose proof (materialized_regular_inv i Hmat Hreg) as ->.
  unfold simplefs_readpage, simplefs_read_folio. cbn [folio_page].
  rewrite Hl. cbn [mbind outcome_bind]. rewrite message_size_u64.
  destruct (12 <? index pg).
  - split; eexists; (split; [reflexivity|]); split; reflexivity.
  - rewrite memcpy_message by (rewrite Hlen; unfold PAGE_SIZE; lia).
    split; eexists; (split; [reflexivity|]); split; reflexivity.
Qed.

Lemma read_marks_ready_witness :
  (∃ pg', simplefs_readpage message_sb (blank_page 0) = Ret (0, pg') ∧
          PG_uptodate pg' = true ∧ PG_locked pg' = false) ∧
  (∃ fl', simplefs_read_folio message_sb (mkFolio (blank_page 0)) = Ret (0, fl') ∧
          PG_uptodate (folio_page fl') = true ∧
          PG_locked (folio_page fl') = false).
Proof.
  apply (read_marks_ready message_sb (blank_page 0) message_inode).
  - reflexivity.
  - exact message_inode_materialized.
  - reflexivity.
  - vm_compute. reflexivity.
Defined.

(** C6: on a materialized regular object, a read at a page index strictly
    greater than the byte size skips the copy and leaves the buffer as it
    was; any other read copies exactly [i_size] bytes, the bytes the
    content pointer points to, to the start of the buffer and leaves the
    rest of the buffer as it was (it is not zero-filled). *)
Theorem read_copies_size_bytes (sb : super_block) (pg : page) (i : inode) :
  load_inode sb (mapping_host pg) = Ret i →
  materialized i →
  S_ISREG (i_mode i) = true →
  Z.of_nat (length (data pg)) = PAGE_SIZE →
  (i_size i < index pg →
   simplefs_readpage sb pg = Ret (0, unlock_page (SetPageUptodate pg)) ∧
   simplefs_read_folio sb (mkFolio pg) =
     Ret (0, folio_unlock (folio_mark_uptodate (mkFolio pg))) ∧
   data (unlock_page (SetPageUptodate pg)) = data pg) ∧
  (index pg <= i_size i →
   ∃ s buf,
     load_str (i_private i) = Ret s ∧
     strlen s = i_size i ∧
     Z.of_nat (length (list_byte_of_string s)) = i_size i ∧
     buf = list_byte_of_string s ++ drop (Z.to_nat (i_size i)) (data pg) ∧
     length buf = length (data pg) ∧
     simplefs_readpage sb pg =
       Ret (0, unlock_page (SetPageUptodate (set_data buf pg))) ∧
     simplefs_read_folio sb (mkFolio pg) =
       Ret (0, folio_unlock (folio_mark_uptodate (mkFolio (set_data buf pg))))).
Proof.
  intros Hl Hmat Hreg Hlen.
  pose proof (materialized_regular_inv i Hmat Hreg) as ->.
  unfold simplefs_readpage, simplefs_read_folio. cbn [folio_page].
  rewrite Hl. cbn [mbind outcome_bind]. rewrite message_size_u64.
  change (i_size message_inode) with 12.
  assert (Hbuf : 12 <= Z.of_nat (length (data pg)))
    by (rewrite Hlen; unfold PAGE_SIZE; lia).
  split.
  - intros Hidx. apply Z.ltb_lt in Hidx. rewrite Hidx. now repeat split.
  - intros Hidx. apply Z.ltb_ge in Hidx. rewrite Hidx.
    rewrite memcpy_message by done.
    exists "Hello World!"%string, (list_byte_of_string "Hello World!" ++ drop 12 (data pg)).
    repeat split.
    rewrite length_app, length_drop.
    change (length (list_byte_of_string "Hello World!")) with 12%nat. lia.
Qed.

Lemma read_copies_size_bytes_witness :
  simplefs_readpage message_sb (blank_page 13) =
    Ret (0, unlock_page (SetPageUptodate (blank_page 13))) ∧
  simplefs_read_folio message_sb (mkFolio (blank_page 13)) =
    Ret (0, folio_unlock (folio_mark_uptodate (mkFolio (blank_page 13)))) ∧
  data (unlock_page (SetPageUptodate (blank_page 13))) = data (blank_page 13).
Proof.
  refine (proj1 (read_copies_size_bytes message_sb (blank_page 13)
                   message_inode _ message_inode_materialized _ _) _).
  - reflexivity.
  - reflexivity.
  - vm_compute. reflexivity.
  - vm_compute. reflexivity.
Defined.

(** ** Lookup *)

Lemma for_loop_3 {St} (body : Z → St → outcome St) (s : St) :
  for_loop 3 0 3 body s =
  (s1 ← body 0 s; s2 ← body 1 s1; s3 ← body 2 s2; Ret s3).
Proof. reflexivity. Qed.

Lemma lookup_body_spec tbl d i e s st :
  load_entry tbl i = Ret e →
  load_str (name e) = Ret s →
  no_nul s = true → no_nul (d_name d) = true →
  lookup_body tbl d i st =
  if name_is (d_name d) e then simplefs_iget tbl (snd st) (ino e) else Ret st.
Proof.
  intros He Hs Hn Hd. destruct st as [p sb].
  unfold lookup_body, name_is. rewrite He. cbn [mbind outcome_bind].
  rewrite Hs. cbn [mbind outcome_bind snd].
  now rewrite lnot_strcmp.
Qed.

Lemma resolve_each_app tbl es e st :
  resolve_each tbl (es ++ [e]) st =
  (st1 ← resolve_each tbl es st; simplefs_iget tbl (snd st1) (ino e)).
Proof.
  revert st. induction es as [|e' es IH]; intros st; cbn [app resolve_each].
  - cbn [mbind outcome_bind].
    now destruct (simplefs_iget tbl (snd st) (ino e)).
  - destruct (simplefs_iget tbl (snd st) (ino e')) as [st'| | |];
      cbn [mbind outcome_bind]; [apply IH | reflexivity..].
Qed.

Ltac lookup_step i e s :=
  rewrite (lookup_body_spec _ _ i e s) by (reflexivity || assumption);
  let b := fresh "b" in
  destruct (name_is _ e) eqn:b;
  cbn [mbind outcome_bind resolve_each snd];
  [ match goal with
    | |- context [simplefs_iget ?t ?sb ?n] =>
        destruct (simplefs_iget t sb n) as [[? ?]| | |];
        cbn [mbind outcome_bind resolve_each snd]; try reflexivity
    end
  | ].

(** The loop of [simplefs_lookup] resolves, in catalog order, the identity
    of every entry whose name equals the one looked up, and what reaches
    [d_splice_alias] is the pointer resolved last (NULL if there is none). *)
Lemma lookup_resolves_matching tbl sb d :
  length tbl = 3%nat → readable_names tbl → no_nul (d_name d) = true →
  simplefs_lookup tbl sb d =
  ('(p, sb') ← resolve_each tbl (matching tbl (d_name d)) (NULL_inode, sb);
   Ret (d_splice_alias p d, sb')).
Proof.
  intros Hlen Hrd Hd.
  destruct tbl as [|e0 [|e1 [|e2 [|]]]]; try discriminate.
  destruct (Hrd e0) as (s0 & H0 & N0); [set_solver|].
  destruct (Hrd e1) as (s1 & H1 & N1); [set_solver|].
  destruct (Hrd e2) as (s2 & H2 & N2); [set_solver|].
  unfold simplefs_lookup. rewrite for_loop_3.
  unfold matching. cbn [List.filter].
  lookup_step 0 e0 s0; lookup_step 1 e1 s1; lookup_step 2 e2 s2;
    reflexivity.
Qed.

Lemma Entries_readable : readable_names Entries.
Proof.
  intros e He. unfold Entries in He.
  repeat (apply elem_of_cons in He as [-> | He]).
  4: now apply elem_of_nil in He.
  all: eexists; split; reflexivity.
Qed.

Lemma Entries_dup_readable : readable_names Entries_dup.
Proof.
  intros e He. unfold Entries_dup in He.
  repeat (apply elem_of_cons in He as [-> | He]).
  4: now apply elem_of_nil in He.
  all: eexists; split; reflexivity.
Qed.

(** In the static catalog at most one entry has a given name. *)
Lemma matching_Entries nm :
  matching Entries nm = [] ∨ ∃ e, matching Entries nm = [e].
Proof.
  unfold matching, Entries. cbn [List.filter].
  change (name_is nm (mkEntry (StrLit 0) 1 DT_DIR (StrLit 1)))
    with (String.eqb "." nm).
  change (name_is nm (mkEntry (StrLit 2) 1 DT_DIR (StrLit 3)))
    with (String.eqb ".." nm).
  change (name_is nm (mkEntry (StrLit 4) 2 DT_REG (StrLit 5)))
    with (String.eqb "message.txt" nm).
  destruct (String.eqb_spec "." nm) as [<-|]; [right; eexists; reflexivity|].
  destruct (String.eqb_spec ".." nm) as [<-|]; [right; eexists; reflexivity|].
  destruct (String.eqb_spec "message.txt" nm) as [<-|].
  - right; eexists; reflexivity.
  - now left.
Qed.

Lemma name_is_false nm e s :
  load_str (name e) = Ret s → s ≠ nm → name_is nm e = false.
Proof.
  intros Hs Hne. unfold name_is. rewrite Hs.
  now destruct (String.eqb_spec s nm).
Qed.

(** C7 (as amended): [simplefs_lookup] scans the whole catalog in its fixed
    order for entries whose name equals the looked-up name byte for byte
    and resolves the identity of each of them in turn; with no such entry
    the dentry is made negative, otherwise the object attached to the
    dentry is the one resolved for the last matching entry.  In the static
    catalog names are distinct, so there the only match is also the first
    one. *)
Theorem lookup_last_match (tbl : list Entry) (sb : super_block) (d : dentry) :
  length tbl = 3%nat → readable_names tbl → no_nul (d_name d) = true →
  (matching tbl (d_name d) = [] →
   simplefs_lookup tbl sb d = Ret (d_splice_alias NULL_inode d, sb)) ∧
  (∀ es e, matching tbl (d_name d) = es ++ [e] →
   simplefs_lookup tbl sb d =
   ('(_, sb1) ← resolve_each tbl es (NULL_inode, sb);
    '(p, sb2) ← simplefs_iget tbl sb1 (ino e);
    Ret (d_splice_alias p d, sb2))) ∧
  (tbl = Entries → simplefs_lookup tbl sb d = lookup_first_match tbl sb d).
Proof.
  intros Hlen Hrd Hd.
  rewrite (lookup_resolves_matching tbl sb d Hlen Hrd Hd).
  split; [|split].
  - now intros ->.
  - intros es e ->. rewrite resolve_each_app.
    destruct (resolve_each tbl es (NULL_inode, sb)) as [[p1 sb1]| | |];
      cbn [mbind outcome_bind snd]; reflexivity.
  - intros ->. unfold lookup_first_match.
    destruct (matching_Entries (d_name d)) as [-> | [e ->]];
      cbn [resolve_each mbind outcome_bind snd]; [reflexivity|].
    destruct (simplefs_iget Entries sb (ino e)) as [[p1 sb1]| | |];
      reflexivity.
Qed.

Lemma lookup_last_match_witness :
  simplefs_lookup Entries_dup (empty_sb 2) (mkDentry "message.txt" NULL_inode) =
  ('(_, sb1) ← resolve_each Entries_dup
                 [mkEntry (StrLit 4) 1 DT_DIR (StrLit 1)]
                 (NULL_inode, empty_sb 2);
   '(p, sb2) ← simplefs_iget Entries_dup sb1 2;
   Ret (d_splice_alias p (mkDentry "message.txt" NULL_inode), sb2)).
Proof.
  exact (proj1 (proj2 (lookup_last_match Entries_dup (empty_sb 2)
                         (mkDentry "message.txt" NULL_inode)
                         eq_refl Entries_dup_readable eq_refl))
               [mkEntry (StrLit 4) 1 DT_DIR (StrLit 1)]
               (mkEntry (StrLit 4) 2 DT_REG (StrLit 5)) eq_refl).
Defined.

(** C7 as stated fails: in a catalog whose first and last entry share a
    name, both are resolved and the dentry gets the object of the last one
    (identity 2), not of the earliest (identity 1). *)
Lemma lookup_duplicate_name_last_wins :
  let d := mkDentry "message.txt" NULL_inode in
  matching Entries_dup "message.txt" =
    [mkEntry (StrLit 4) 1 DT_DIR (StrLit 1);
     mkEntry (StrLit 4) 2 DT_REG (StrLit 5)] ∧
  simplefs_lookup Entries_dup (empty_sb 2) d =
    Ret (NULL_dentry, mkDentry "message.txt" (InodeAt 2),
         mkSb (<[2 := message_inode]> {[ 1 := root_inode ]}) 0) ∧
  lookup_first_match Entries_dup (empty_sb 2) d =
    Ret (NULL_dentry, mkDentry "message.txt" (InodeAt 1),
         mkSb {[ 1 := root_inode ]} 1) ∧
  simplefs_lookup Entries_dup (empty_sb 2) d ≠
    lookup_first_match Entries_dup (empty_sb 2) d.
Proof.
  cbv zeta.
  assert (H1 : simplefs_lookup Entries_dup (empty_sb 2)
                 (mkDentry "message.txt" NULL_inode) =
               Ret (NULL_dentry, mkDentry "message.txt" (InodeAt 2),
                    mkSb (<[2 := message_inode]> {[ 1 := root_inode ]}) 0))
    by (vm_compute; reflexivity).
  assert (H2 : lookup_first_match Entries_dup (empty_sb 2)
                 (mkDentry "message.txt" NULL_inode) =
               Ret (NULL_dentry, mkDentry "message.txt" (InodeAt 1),
                    mkSb {[ 1 := root_inode ]} 1))
    by (vm_compute; reflexivity).
  split; [reflexivity|]. split; [exact H1|]. split; [exact H2|].
  rewrite H1, H2. intros [= ].
Qed.

(** C8: looking up a name that no entry of the catalog has makes the dentry
    negative and returns NULL, which is how the host is told "no entry";
    no error pointer is returned and the inode cache is left as it was. *)
Theorem lookup_absent_name (sb : super_block) (d : dentry) :
  no_nul (d_name d) = true →
  (∀ e s, e ∈ Entries → load_str (name e) = Ret s → s ≠ d_name d) →
  simplefs_lookup Entries sb d =
  Ret (NULL_dentry, mkDentry (d_name d) NULL_inode, sb).
Proof.
  intros Hd Habs.
  rewrite (lookup_resolves_matching Entries sb d eq_refl Entries_readable Hd).
  assert (Hm : matching Entries (d_name d) = []).
  { unfold matching, Entries. cbn [List.filter].
    rewrite (name_is_false _ (mkEntry (StrLit 0) 1 DT_DIR (StrLit 1)) ".")
      by (try apply Habs; (reflexivity || set_solver)).
    rewrite (name_is_false _ (mkEntry (StrLit 2) 1 DT_DIR (StrLit 3)) "..")
      by (try apply Habs; (reflexivity || set_solver)).
    rewrite (name_is_false _ (mkEntry (StrLit 4) 2 DT_REG (StrLit 5))
               "message.txt")
      by (try apply Habs; (reflexivity || set_solver)).
    reflexivity. }
  now rewrite Hm.
Qed.

Lemma lookup_absent_name_witness :
  simplefs_lookup Entries (empty_sb 0) (mkDentry "does-not-exist" NULL_inode) =
  Ret (NULL_dentry, mkDentry "does-not-exist" NULL_inode, empty_sb 0).
Proof.
  apply (lookup_absent_name (empty_sb 0) (mkDentry "does-not-exist" NULL_inode)).
  - reflexivity.
  - intros e s He Hs. unfold Entries in He.
    repeat (apply elem_of_cons in He as [-> | He]).
    4: now apply elem_of_nil in He.
    all: injection Hs as <-; discriminate.
Defined.

(** ** Name and identity resolution *)

Lemma find_body_spec tbl nm i e s found :
  load_entry tbl i = Ret e →
  load_str (name e) = Ret s →
  no_nul s = true → no_nul nm = true →
  find_body tbl nm i found = Ret (if name_is nm e then Some e else found).
Proof.
  intros He Hs Hn Hd.
  unfold find_body, name_is. rewrite He. cbn [mbind outcome_bind].
  rewrite Hs. cbn [mbind outcome_bind].
  rewrite lnot_strcmp by done. now destruct (String.eqb s nm).
Qed.

(** [find_by_name] is the name resolution [simplefs_lookup] performs: on
    the static catalog the lookup resolves the identity of the entry that
    [find_by_name] finds. *)
Lemma lookup_via_find_by_name sb d :
  no_nul (d_name d) = true →
  simplefs_lookup Entries sb d =
  (r ← find_by_name Entries (d_name d);
   match r with
   | None => Ret (d_splice_alias NULL_inode d, sb)
   | Some e =>
       '(p, sb') ← simplefs_iget Entries sb (ino e);
       Ret (d_splice_alias p d, sb')
   end).
Proof.
  intros Hd.
  rewrite (lookup_resolves_matching Entries sb d eq_refl Entries_readable Hd).
  destruct d as [nm di]. cbn [d_name] in *.
  unfold find_by_name. rewrite for_loop_3.
  rewrite (find_body_spec Entries _ 0 (mkEntry (StrLit 0) 1 DT_DIR (StrLit 1))
             ".") by done.
  cbn [mbind outcome_bind].
  rewrite (find_body_spec Entries _ 1 (mkEntry (StrLit 2) 1 DT_DIR (StrLit 3))
             "..") by done.
  cbn [mbind outcome_bind].
  rewrite (find_body_spec Entries _ 2 (mkEntry (StrLit 4) 2 DT_REG (StrLit 5))
             "message.txt") by done.
  cbn [mbind outcome_bind].
  unfold matching, Entries. cbn [List.filter].
  change (name_is nm (mkEntry (StrLit 0) 1 DT_DIR (StrLit 1)))
    with (String.eqb "." nm).
  change (name_is nm (mkEntry (StrLit 2) 1 DT_DIR (StrLit 3)))
    with (String.eqb ".." nm).
  change (name_is nm (mkEntry (StrLit 4) 2 DT_REG (StrLit 5)))
    with (String.eqb "message.txt" nm).
  destruct (String.eqb_spec "." nm) as [<-|];
    [cbn; now destruct (simplefs_iget _ sb 1) as [[]| | |]|].
  destruct (String.eqb_spec ".." nm) as [<-|];
    [cbn; now destruct (simplefs_iget _ sb 1) as [[]| | |]|].
  destruct (String.eqb_spec "message.txt" nm) as [<-|];
    [cbn; now destruct (simplefs_iget _ sb 2) as [[]| | |]|].
  reflexivity.
Qed.

(** C4 (as amended): for every entry of the static catalog, its name
    resolves to the entry itself, and the identity of the entry resolves
    back to an entry of the same identity and kind.  The entry resolved back
    is the original one, so that the name comes back unchanged, for every
    name but "..", which shares identity 1 with "." and comes back as ".". *)
Theorem roundtrip_up_to_alias (e : Entry) (s : string) :
  e ∈ Entries →
  load_str (name e) = Ret s →
  ∃ e2,
    find_by_name Entries s = Ret (Some e) ∧
    find_by_identity Entries (ino e) = Ret e2 ∧
    ino e2 = ino e ∧ type e2 = type e ∧
    (s ≠ ".."%string → e2 = e ∧ resolve_back Entries s = Ret (Some s)) ∧
    (s = ".."%string → resolve_back Entries s = Ret (Some "."%string)).
Proof.
  intros He Hs. unfold Entries in He.
  repeat (apply elem_of_cons in He as [-> | He]).
  4: now apply elem_of_nil in He.
  all: injection Hs as <-.
  - exists (mkEntry (StrLit 0) 1 DT_DIR (StrLit 1)).
    repeat (split; [reflexivity|]). split; [now intros _|discriminate].
  - exists (mkEntry (StrLit 0) 1 DT_DIR (StrLit 1)).
    repeat (split; [reflexivity|]). split; [now intros []|reflexivity].
  - exists (mkEntry (StrLit 4) 2 DT_REG (StrLit 5)).
    repeat (split; [reflexivity|]). split; [now intros _|discriminate].
Qed.

Lemma roundtrip_up_to_alias_witness :
  ∃ e2,
    find_by_name Entries "message.txt" =
      Ret (Some (mkEntry (StrLit 4) 2 DT_REG (StrLit 5))) ∧
    find_by_identity Entries 2 = Ret e2 ∧
    ino e2 = 2 ∧ type e2 = DT_REG ∧
    ("message.txt"%string ≠ ".."%string →
     e2 = mkEntry (StrLit 4) 2 DT_REG (StrLit 5) ∧
     resolve_back Entries "message.txt" = Ret (Some "message.txt"%string)) ∧
    ("message.txt"%string = ".."%string →
     resolve_back Entries "message.txt" = Ret (Some "."%string)).
Proof.
  apply (roundtrip_up_to_alias (mkEntry (StrLit 4) 2 DT_REG (StrLit 5))
           "message.txt").
  - unfold Entries. do 2 apply list_elem_of_further. apply list_elem_of_here.
  - reflexivity.
Defined.

(** C4 as stated fails at "..": its identity is 1, and identity 1 resolves
    to the entry named ".". *)
Lemma roundtrip_fails_for_dotdot :
  Entries !! 1%nat = Some (mkEntry (StrLit 2) 1 DT_DIR (StrLit 3)) ∧
  load_str (StrLit 2) = Ret ".."%string ∧
  find_by_name Entries ".." =
    Ret (Some (mkEntry (StrLit 2) 1 DT_DIR (StrLit 3))) ∧
  find_by_identity Entries 1 =
    Ret (mkEntry (StrLit 0) 1 DT_DIR (StrLit 1)) ∧
  load_str (StrLit 0) = Ret "."%string ∧
  resolve_back Entries ".." ≠ Ret (Some ".."%string).
Proof.
  repeat (split; [reflexivity|]).
  change (resolve_back Entries "..") with (Ret (Some "."%string)).
  intros [= ].
Qed.

(** ** Enumeration *)

Section Readdir.

Context {Sink : Type}.

Lemma load_entry_fuel tbl i : load_entry tbl i ≠ OutOfFuel.
Proof.
  unfold load_entry. destruct (i <? 0); [discriminate|].
  destruct (tbl !! Z.to_nat i); discriminate.
Qed.

Lemma load_str_fuel p : load_str p ≠ OutOfFuel.
Proof.
  destruct p as [|k]; [discriminate|]. unfold load_str.
  destruct (rodata !! k); discriminate.
Qed.

Lemma readdir_loop_total fuel : ∀ tbl i amount (cxt : dir_context Sink),
  0 <= i → (Z.to_nat (3 - i) <= fuel)%nat →
  readdir_loop fuel tbl i amount cxt ≠ OutOfFuel.
Proof.
  induction fuel as [|fuel IH]; intros tbl i amount cxt Hi Hf;
    cbn [readdir_loop]; destruct (Z.ltb_spec i 3); try discriminate.
  - lia.
  - destruct (load_entry tbl i) as [e| | |] eqn:He; cbn [mbind outcome_bind];
      try discriminate; [|now apply load_entry_fuel in He].
    destruct (load_str (name e)) as [s| | |] eqn:Hs; cbn [mbind outcome_bind];
      try discriminate; [|now apply load_str_fuel in Hs].
    destruct (dir_emit _ s _ _ _) as [[] cxt']; cbn [negb];
      [apply IH; lia | discriminate].
Qed.

(** The loop budget of [simplefs_readdir] is never exhausted: the function
    terminates on every catalog, cursor and sink. *)
Lemma simplefs_readdir_total tbl (cxt : dir_context Sink) :
  simplefs_readdir tbl cxt ≠ OutOfFuel.
Proof.
  unfold simplefs_readdir.
  destruct (Z.ltb_spec (wrap_s32 (pos cxt)) 0) as [Hneg|Hpos].
  - cbn [readdir_loop].
    destruct (Z.ltb_spec (wrap_s32 (pos cxt)) 3); [|lia].
    unfold load_entry. apply Z.ltb_lt in Hneg. rewrite Hneg. discriminate.
  - apply readdir_loop_total; lia.
Qed.

Lemma Entries_at i :
  0 <= i < 3 →
  ∃ e s, load_entry Entries i = Ret e ∧ load_str (name e) = Ret s.
Proof.
  intros H. assert (i = 0 ∨ i = 1 ∨ i = 2) as [-> | [-> | ->]] by lia;
    do 2 eexists; split; reflexivity.
Qed.

(** From a catalog index, the loop returns, and it counts one and moves the
    cursor by one for every call of the sink it makes. *)
Lemma readdir_loop_progress fuel : ∀ i amount (cxt : dir_context Sink),
  0 <= i <= 3 → (Z.to_nat (3 - i) <= fuel)%nat →
  0 <= pos cxt → pos cxt + (3 - i) < 2 ^ 63 →
  ∃ amount' cxt',
    readdir_loop fuel Entries i amount cxt = Ret (amount', cxt') ∧
    amount' - amount = pos cxt' - pos cxt ∧
    0 <= amount' - amount <= 3 - i ∧
    (i < 3 → 1 <= amount' - amount).
Proof.
  induction fuel as [|fuel IH]; intros i amount cxt Hi Hf Hp Hq;
    cbn [readdir_loop]; destruct (Z.ltb_spec i 3).
  - lia.
  - exists amount, cxt. split; [reflexivity|lia].
  - destruct (Entries_at i) as (e & s & He & Hs); [lia|].
    rewrite He. cbn [mbind outcome_bind]. rewrite Hs. cbn [mbind outcome_bind].
    unfold dir_emit, set_pos. cbn [actor sink pos].
    rewrite (wrap_s64_id (pos cxt + 1)) by lia.
    destruct (actor cxt (sink cxt) _) as [snk []]; cbn [negb].
    + destruct (IH (i + 1) (amount + 1) (mkCtx (actor cxt) (pos cxt + 1) snk))
        as (amount' & cxt' & Hr & Hd & Hb & _); cbn [pos]; try lia.
      exists amount', cxt'. split; [exact Hr|]. cbn [pos] in Hd. lia.
    + eexists _, _. split; [reflexivity|]. cbn [pos]. lia.
  - exists amount, cxt. split; [reflexivity|lia].
Qed.

End Readdir.

(** C3: a call of [simplefs_readdir] whose cursor is a catalog index (below
    the catalog length 3) returns a count of at least one and leaves the
    cursor strictly advanced; so a call that returns 0 had its cursor at or
    past the end of the catalog, and from there 0 is returned with the
    cursor where it was. *)
Theorem readdir_zero_only_at_end {Sink : Type} (cxt : dir_context Sink) :
  (0 <= pos cxt < 3 →
   ∃ amount cxt',
     simplefs_readdir Entries cxt = Ret (amount, cxt') ∧
     0 < amount ∧ pos cxt < pos cxt') ∧
  (0 <= pos cxt < 2 ^ 63 →
   ∀ cxt', simplefs_readdir Entries cxt = Ret (0, cxt') → 3 <= pos cxt) ∧
  (3 <= pos cxt < 2 ^ 31 → simplefs_readdir Entries cxt = Ret (0, cxt)).
Proof.
  assert (Hadv : 0 <= pos cxt < 3 →
            ∃ amount cxt',
              simplefs_readdir Entries cxt = Ret (amount, cxt') ∧
              0 < amount ∧ pos cxt < pos cxt').
  { intros Hp. unfold simplefs_readdir. rewrite wrap_s32_id by lia.
    destruct (readdir_loop_progress 3 (pos cxt) 0 cxt)
      as (amount & cxt' & Hr & Hd & Hb & Hs); try lia.
    exists amount, cxt'. split; [exact Hr|]. lia. }
  split; [exact Hadv|]. split.
  - intros Hp cxt' Hr. destruct (Z.lt_ge_cases (pos cxt) 3) as [Hlt|]; [|done].
    destruct Hadv as (amount & cxt'' & Hr' & Ha & _); [lia|].
    rewrite Hr in Hr'. injection Hr' as <- _. lia.
  - intros Hp. unfold simplefs_readdir. rewrite wrap_s32_id by lia.
    cbn [readdir_loop]. destruct (Z.ltb_spec (pos cxt) 3); [lia|reflexivity].
Qed.

Lemma readdir_zero_only_at_end_witness :
  ∃ amount cxt',
    simplefs_readdir Entries (bounded_ctx 2 0) = Ret (amount, cxt') ∧
    0 < amount ∧ pos (bounded_ctx 2 0) < pos cxt'.
Proof.
  apply (proj1 (readdir_zero_only_at_end (bounded_ctx 2 0))).
  cbn [pos bounded_ctx]. lia.
Defined.

(** C2 (the code departs from it): with a sink that has room for one entry,
    a call from cursor 0 hands "." to the sink, which takes it, then "..",
    which the sink refuses.  The call stops there, but it returns 2 and
    leaves the cursor at 2: the refused entry is counted and the cursor is
    past it.  The next call starts at "message.txt", so ".." never reaches
    the sink. *)
Theorem readdir_refused_entry_counted_and_skipped :
  ∃ c1 c2,
    simplefs_readdir Entries (bounded_ctx 0 1) = Ret (2, c1) ∧
    pos c1 = 2 ∧
    em_name <$> taken (sink c1) = ["."%string] ∧
    simplefs_readdir Entries (bounded_ctx (pos c1) 5) = Ret (1, c2) ∧
    pos c2 = 3 ∧
    em_name <$> taken (sink c2) = ["message.txt"%string].
Proof.
  eexists _, _.
  split; [reflexivity|]. split; [reflexivity|]. split; [reflexivity|].
  split; [reflexivity|]. split; reflexivity.
Qed.

(** ** Module life cycle *)

Import Lifecycle.

(** C10: [simplefs_init] returns 0 whatever [register_filesystem] returned,
    in particular when the registration failed because the name was taken;
    the value [register_filesystem] returned is kept in [ret]; and
    [simplefs_exit] unregisters the file system exactly when [ret] is 0. *)
Theorem init_returns_zero (m : machine) :
  (simplefs_init m).1 = 0 ∧
  ret (simplefs_init m).2 = (register_filesystem (host m) fs_name).1 ∧
  (fs_name ∈ file_systems (host m) →
   (simplefs_init m).1 = 0 ∧
   ret (simplefs_init m).2 = - EBUSY ∧
   file_systems (host (simplefs_init m).2) = file_systems (host m) ∧
   file_systems (host (simplefs_exit (simplefs_init m).2)) =
     file_systems (host m)) ∧
  (ret m = 0 →
   file_systems (host (simplefs_exit m)) =
   file_systems (unregister_filesystem (host m) fs_name).2) ∧
  (ret m ≠ 0 →
   file_systems (host (simplefs_exit m)) = file_systems (host m)).
Proof.
  assert (Hinit : ∀ r k,
            register_filesystem (host m) fs_name = (r, k) →
            (simplefs_init m).1 = 0 ∧ ret (simplefs_init m).2 = r ∧
            file_systems (host (simplefs_init m).2) = file_systems k).
  { intros r k Hr. unfold simplefs_init. rewrite Hr. cbn [ret].
    destruct (lnot r); now cbn. }
  destruct (register_filesystem (host m) fs_name) as [r k] eqn:Hr.
  destruct (Hinit r k eq_refl) as (H0 & Hret & Hfs).
  split; [exact H0|]. split; [exact Hret|]. split; [|split].
  - intros Hin. unfold register_filesystem in Hr.
    rewrite bool_decide_eq_true_2 in Hr by exact Hin.
    injection Hr as <- <-.
    split; [exact H0|]. split; [exact Hret|]. split; [exact Hfs|].
    unfold simplefs_exit. rewrite Hret.
    change (lnot (- EBUSY)) with false. cbv iota.
    cbn [pr_info host file_systems]. exact Hfs.
  - intros Hz. unfold simplefs_exit. rewrite Hz.
    change (lnot 0) with true. now cbv iota.
  - intros Hnz. unfold simplefs_exit, lnot.
    apply Z.eqb_neq in Hnz. now rewrite Hnz.
Qed.

Lemma init_returns_zero_witness :
  let m := mkMachine 0 (mkKernel [fs_name] []) in
  (simplefs_init m).1 = 0 ∧
  ret (simplefs_init m).2 = - EBUSY ∧
  file_systems (host (simplefs_init m).2) = [fs_name] ∧
  file_systems (host (simplefs_exit (simplefs_init m).2)) = [fs_name].
Proof.
  cbv zeta.
  apply (proj1 (proj2 (proj2
           (init_returns_zero (mkMachine 0 (mkKernel [fs_name] [])))))).
  apply list_elem_of_here.
Defined.

(** * Further properties of the code *)

(** ** The resolver and the inode cache *)

Lemma load_entry_cases tbl i :
  load_entry tbl i = Undef ∨ ∃ e, load_entry tbl i = Ret e.
Proof.
  unfold load_entry. destruct (i <? 0); [now left|].
  destruct (tbl !! Z.to_nat i); [right; eauto | now left].
Qed.

Lemma load_str_cases p : load_str p = Undef ∨ ∃ s, load_str p = Ret s.
Proof.
  destruct p as [|k]; [now left|]. unfold load_str.
  destruct (rodata !! k); [right; eauto | now left].
Qed.

Lemma deref_cases tbl e : deref tbl e = Undef ∨ ∃ e', deref tbl e = Ret e'.
Proof. destruct e; [now left | apply load_entry_cases]. Qed.

(** On a new identity the resolver either runs into undefined behaviour or
    returns the new inode, numbered [n] and still marked [I_NEW], in a
    cache that differs from the old one at [n] only. *)
Lemma iget_new_cases tbl m a n :
  m !! n = None →
  simplefs_iget tbl (mkSb m (S a)) n = Undef ∨
  ∃ i, simplefs_iget tbl (mkSb m (S a)) n =
         Ret (InodeAt n, mkSb (<[n := i]> m) a) ∧
       i_ino i = n ∧ i_state i = I_NEW.
Proof.
  intros H. iget_start H.
  destruct (deref_cases tbl (select_entry Indeterminate n)) as [-> | [e ->]];
    [now left|].
  cbn [mbind outcome_bind].
  destruct (type e =? DT_DIR); destruct (type e =? DT_REG);
    repeat (rewrite store_insert; cbn [mbind outcome_bind]);
    destruct (load_str_cases (content e)) as [Hs | [s Hs]];
    rewrite ?Hs; cbn [mbind outcome_bind];
    repeat (rewrite store_insert; cbn [mbind outcome_bind]);
    first [ left; reflexivity
          | right; eexists; (split; [reflexivity|]); split; reflexivity ].
Qed.

Lemma iget_cached tbl sb n i :
  s_inodes sb !! n = Some i → Z.land (i_state i) I_NEW = 0 →
  simplefs_iget tbl sb n = Ret (InodeAt n, sb).
Proof.
  intros Hm Hnew. unfold simplefs_iget, iget_locked. rewrite Hm, Hnew.
  change (lnot 0) with true. cbn [mbind outcome_bind is_NULL].
  rewrite (load_inode_at _ _ i) by exact Hm. cbn [mbind outcome_bind].
  now rewrite Hnew.
Qed.

(** X1: whatever the catalog and the cache, a call of the resolver that
    returns yields either [ERR_PTR(-ENOMEM)] with the cache as it was, or
    the pointer to the inode hashed under the requested number, which is
    then in the cache; it never returns NULL, and the inodes hashed under
    other numbers are left as they were. *)
Theorem iget_frame (tbl : list Entry) (sb sb' : super_block) (n : Z)
    (p : inode_ptr) :
  simplefs_iget tbl sb n = Ret (p, sb') →
  (p = ERR_PTR (- ENOMEM) ∧ sb' = sb ∨
   p = InodeAt n ∧ ∃ i, load_inode sb' p = Ret i) ∧
  (∀ n', n' ≠ n → s_inodes sb' !! n' = s_inodes sb !! n').
Proof.
  destruct sb as [m a]. destruct (m !! n) as [i|] eqn:Hm.
  - unfold simplefs_iget, iget_locked. cbn [s_inodes]. rewrite Hm.
    destruct (lnot (Z.land (i_state i) I_NEW)) eqn:Hnew;
      cbn [mbind outcome_bind is_NULL]; [|discriminate].
    rewrite (load_inode_at _ _ i) by exact Hm. cbn [mbind outcome_bind].
    rewrite Hnew. intros [= <- <-]. split; [|done].
    right. split; [done|]. exists i. now apply load_inode_at.
  - destruct a as [|a].
    + rewrite iget_nomem by done. intros [= <- <-]. split; [now left|done].
    + destruct (iget_new_cases tbl m a n Hm) as [-> | (i & -> & _)];
        [discriminate|].
      intros [= <- <-]. split.
      * right. split; [done|]. exists i.
        apply load_inode_at. apply lookup_insert_eq.
      * intros n' Hn'. cbn [s_inodes]. now apply lookup_insert_ne.
Qed.

Lemma iget_frame_witness :
  (InodeAt 2 = ERR_PTR (- ENOMEM) ∧
   mkSb {[ 2 := message_inode ]} 7 = empty_sb 8 ∨
   InodeAt 2 = InodeAt 2 ∧
   ∃ i, load_inode (mkSb {[ 2 := message_inode ]} 7) (InodeAt 2) = Ret i) ∧
  (∀ n', n' ≠ 2 →
   s_inodes (mkSb {[ 2 := message_inode ]} 7) !! n' =
   s_inodes (empty_sb 8) !! n').
Proof.
  apply (iget_frame Entries (empty_sb 8) (mkSb {[ 2 := message_inode ]} 7) 2
           (InodeAt 2)).
  vm_compute. reflexivity.
Defined.

(** X2: the two paths of the resolver that do not populate an inode leave
    the cache alone and do not read the catalog, so that they are defined
    for every identity: without memory for a new inode the result is
    [ERR_PTR(-ENOMEM)], and an inode that is cached with [I_NEW] cleared is
    returned as it is. *)
Theorem iget_leaves_cache_alone (tbl : list Entry) (sb : super_block) (n : Z) :
  (s_inodes sb !! n = None → s_avail sb = O →
   simplefs_iget tbl sb n = Ret (ERR_PTR (- ENOMEM), sb)) ∧
  (∀ i, s_inodes sb !! n = Some i → Z.land (i_state i) I_NEW = 0 →
   simplefs_iget tbl sb n = Ret (InodeAt n, sb)).
Proof.
  split.
  - destruct sb as [m a]. cbn [s_inodes s_avail]. intros Hm ->.
    now apply iget_nomem.
  - intros i Hm Hnew. now apply (iget_cached tbl sb n i).
Qed.

Lemma iget_leaves_cache_alone_witness :
  simplefs_iget [] (empty_sb 0) 7 = Ret (ERR_PTR (- ENOMEM), empty_sb 0).
Proof.
  exact (proj1 (iget_leaves_cache_alone [] (empty_sb 0) 7) eq_refl eq_refl).
Defined.

(** X3: the resolver keeps the cache well keyed: if every cached inode is
    hashed under its own [i_ino] before a call that returns, the same holds
    after it. *)
Theorem iget_keeps_cache_ok (tbl : list Entry) (sb sb' : super_block) (n : Z)
    (p : inode_ptr) :
  cache_ok sb →
  simplefs_iget tbl sb n = Ret (p, sb') →
  cache_ok sb'.
Proof.
  intros Hok Hi. destruct sb as [m a]. destruct (m !! n) as [i|] eqn:Hm.
  - destruct (Z.eqb_spec (Z.land (i_state i) I_NEW) 0) as [Hnew|Hnew].
    + rewrite (iget_cached tbl (mkSb m a) n i Hm Hnew) in Hi.
      now injection Hi as <- <-.
    + unfold simplefs_iget, iget_locked in Hi. cbn [s_inodes] in Hi.
      rewrite Hm in Hi. unfold lnot in Hi. apply Z.eqb_neq in Hnew.
      rewrite Hnew in Hi. discriminate.
  - destruct a as [|a].
    + rewrite iget_nomem in Hi by done. now injection Hi as <- <-.
    + destruct (iget_new_cases tbl m a n Hm) as [Hu | (i & Hr & Hino & _)];
        rewrite Hi in *; [discriminate|].
      injection Hr as -> ->. intros n' i'. cbn [s_inodes].
      destruct (decide (n = n')) as [<-|Hne].
      * rewrite lookup_insert_eq. now intros [= <-].
      * rewrite lookup_insert_ne by done. apply Hok.
Qed.

Lemma iget_keeps_cache_ok_witness :
  cache_ok (mkSb {[ 2 := message_inode ]} 7).
Proof.
  apply (iget_keeps_cache_ok Entries (empty_sb 8) _ 2 (InodeAt 2)).
  - intros n i H. cbn in H. now rewrite lookup_empty in H.
  - vm_compute. reflexivity.
Defined.

(** X4: the resolver never clears [I_NEW] on an inode it has populated (it
    does not call [unlock_new_inode]): after a resolution of a new
    identity that returns, the inode is still marked [I_NEW], and a second
    resolution of the same identity waits for ever in [iget_locked]. *)
Theorem iget_twice_blocks (tbl : list Entry) (m : gmap Z inode) (a : nat)
    (n : Z) (p : inode_ptr) (sb' : super_block) :
  m !! n = None →
  simplefs_iget tbl (mkSb m (S a)) n = Ret (p, sb') →
  (∃ i, load_inode sb' p = Ret i ∧ i_state i = I_NEW) ∧
  simplefs_iget tbl sb' n = Blocked.
Proof.
  intros Hm Hi.
  destruct (iget_new_cases tbl m a n Hm) as [Hu | (i & Hr & _ & Hst)];
    rewrite Hi in *; [discriminate|].
  injection Hr as -> ->. split.
  - exists i. split; [|exact Hst]. apply load_inode_at, lookup_insert_eq.
  - unfold simplefs_iget, iget_locked. cbn [s_inodes].
    rewrite lookup_insert_eq, Hst. reflexivity.
Qed.

Lemma iget_twice_blocks_witness :
  (∃ i, load_inode (mkSb {[ 1 := root_inode ]} 7) (InodeAt 1) = Ret i ∧
        i_state i = I_NEW) ∧
  simplefs_iget Entries (mkSb {[ 1 := root_inode ]} 7) 1 = Blocked.
Proof.
  apply (iget_twice_blocks Entries ∅ 7 1 (InodeAt 1)
           (mkSb {[ 1 := root_inode ]} 7)).
  - reflexivity.
  - vm_compute. reflexivity.
Defined.

(** ** Filling the superblock *)

(** X5: on a superblock whose cache has no inode 1 yet, with memory for an
    inode and for a dentry, [simplefs_fill_super] returns 0 and installs as
    [s_root] a dentry on inode 1, which is a directory with the directory
    operations; the rest of the cache is left as it was. *)
Theorem fill_super_root_is_directory (m : mount) (a k : nat) :
  s_inodes (m_sb m) !! 1 = None →
  s_avail (m_sb m) = S a →
  d_avail m = S k →
  ∃ m' i,
    simplefs_fill_super Entries m = Ret (0, m') ∧
    s_root m' = Some (mkDentry "/" (InodeAt 1)) ∧
    load_inode (m_sb m') (InodeAt 1) = Ret i ∧
    S_ISDIR (i_mode i) = true ∧ i_ino i = 1 ∧
    i_fop i = dir_fops ∧ i_op i = dir_iops ∧
    (∀ n', n' ≠ 1 → s_inodes (m_sb m') !! n' = s_inodes (m_sb m) !! n').
Proof.
  destruct m as [[c av] r d]. cbn [m_sb s_inodes s_avail d_avail].
  intros Hc -> ->.
  exists (mkMount (mkSb (<[1 := dir_inode 1]> c) a)
                  (Some (mkDentry "/" (InodeAt 1))) k), (dir_inode 1).
  split.
  - unfold simplefs_fill_super. cbn [m_sb s_root d_avail].
    rewrite (iget_new_dir Entries c a 1 (mkEntry (StrLit 0) 1 DT_DIR (StrLit 1)))
      by done.
    cbn [mbind outcome_bind]. unfold d_make_root.
    cbn [is_NULL m_sb d_avail s_root].
    rewrite (load_inode_at _ _ (dir_inode 1)) by apply lookup_insert_eq.
    reflexivity.
  - split; [reflexivity|]. cbn [m_sb s_inodes].
    split; [apply load_inode_at, lookup_insert_eq|].
    repeat (split; [reflexivity|]).
    intros n' Hn'. now apply lookup_insert_ne.
Qed.

Lemma fill_super_root_is_directory_witness :
  ∃ m' i,
    simplefs_fill_super Entries (mkMount (empty_sb 1) None 1) = Ret (0, m') ∧
    s_root m' = Some (mkDentry "/" (InodeAt 1)) ∧
    load_inode (m_sb m') (InodeAt 1) = Ret i ∧
    S_ISDIR (i_mode i) = true ∧ i_ino i = 1 ∧
    i_fop i = dir_fops ∧ i_op i = dir_iops ∧
    (∀ n', n' ≠ 1 →
     s_inodes (m_sb m') !! n' =
     s_inodes (m_sb (mkMount (empty_sb 1) None 1)) !! n').
Proof.
  exact (fill_super_root_is_directory (mkMount (empty_sb 1) None 1) 0 0
           eq_refl eq_refl eq_refl).
Defined.

(** X6: the failures of [simplefs_fill_super].  When the inode cannot be
    allocated, the [ERR_PTR(-ENOMEM)] of the resolver goes unchecked into
    [d_make_root], which reads through it: undefined behaviour, not an
    error return, whatever the catalog.  When the inode is there but the
    root dentry cannot be allocated, the function returns -ENOMEM with
    [s_root] NULL, and the inode is gone from the cache again. *)
Theorem fill_super_failures (m : mount) :
  s_inodes (m_sb m) !! 1 = None →
  (s_avail (m_sb m) = O → ∀ tbl, simplefs_fill_super tbl m = Undef) ∧
  (∀ a, s_avail (m_sb m) = S a → d_avail m = O →
   ∃ m', simplefs_fill_super Entries m = Ret (- ENOMEM, m') ∧
         s_root m' = None ∧
         s_inodes (m_sb m') = s_inodes (m_sb m)).
Proof.
  destruct m as [[c av] r d]. cbn [m_sb s_inodes s_avail d_avail].
  intros Hc. split.
  - intros -> tbl. unfold simplefs_fill_super. cbn [m_sb].
    now rewrite iget_nomem by done.
  - intros a -> ->.
    exists (mkMount (mkSb c (S a)) None O). split; [|done].
    unfold simplefs_fill_super. cbn [m_sb s_root d_avail].
    rewrite (iget_new_dir Entries c a 1 (mkEntry (StrLit 0) 1 DT_DIR (StrLit 1)))
      by done.
    cbn [mbind outcome_bind]. unfold d_make_root, iput.
    cbn [is_NULL m_sb d_avail s_root].
    rewrite (load_inode_at _ _ (dir_inode 1)) by apply lookup_insert_eq.
    cbn [mbind outcome_bind s_inodes s_avail m_sb s_root d_avail].
    rewrite delete_insert_eq, delete_id by done. reflexivity.
Qed.

Lemma fill_super_failures_witness :
  simplefs_fill_super Entries (mkMount (empty_sb 0) None 1) = Undef.
Proof.
  exact (proj1 (fill_super_failures (mkMount (empty_sb 0) None 1) eq_refl)
               eq_refl Entries).
Defined.

(** ** Page reads, continued *)


(** X8: reading a page of a materialized regular object a second time
    changes nothing: the read of the page that the first read produced
    returns 0 and that same page. *)
Theorem read_idempotent (sb : super_block) (pg : page) (i : inode) :
  load_inode sb (mapping_host pg) = Ret i →
  materialized i →
  S_ISREG (i_mode i) = true →
  Z.of_nat (length (data pg)) = PAGE_SIZE →
  ∃ pg', simplefs_readpage sb pg = Ret (0, pg') ∧
         simplefs_readpage sb pg' = Ret (0, pg') ∧
         length (data pg') = length (data pg).
Proof.
  intros Hl Hmat Hreg Hlen.
  pose proof (materialized_regular_inv i Hmat Hreg) as ->.
  assert (Hbuf : 12 <= Z.of_nat (length (data pg)))
    by (rewrite Hlen; unfold PAGE_SIZE; lia).
  unfold simplefs_readpage.
  rewrite Hl. cbn [mbind outcome_bind]. rewrite message_size_u64.
  destruct (12 <? index pg) eqn:Hidx; cbn [mbind outcome_bind].
  - eexists. split; [reflexivity|].
    cbn [unlock_page SetPageUptodate mapping_host index data].
    rewrite Hl. cbn [mbind outcome_bind]. rewrite message_size_u64, Hidx.
    split; reflexivity.
  - rewrite memcpy_message by done. cbn [mbind outcome_bind].
    eexists. split; [reflexivity|].
    cbn [unlock_page SetPageUptodate set_data mapping_host index data].
    rewrite Hl. cbn [mbind outcome_bind]. rewrite message_size_u64, Hidx.
    assert (Hlen' : length (list_byte_of_string "Hello World!" ++
                            drop 12 (data pg)) = length (data pg)).
    { rewrite length_app, length_drop.
      change (length (list_byte_of_string "Hello World!")) with 12%nat. lia. }
    rewrite memcpy_message by (rewrite Hlen'; exact Hbuf).
    cbn [mbind outcome_bind].
    rewrite (drop_app_length' (list_byte_of_string "Hello World!") _ 12)
      by reflexivity.
    split; [reflexivity | exact Hlen'].
Qed.

Lemma read_idempotent_witness :
  ∃ pg', simplefs_readpage message_sb (blank_page 0) = Ret (0, pg') ∧
         simplefs_readpage message_sb pg' = Ret (0, pg') ∧
         length (data pg') = length (data (blank_page 0)).
Proof.
  apply (read_idempotent message_sb (blank_page 0) message_inode).
  - reflexivity.
  - exact message_inode_materialized.
  - reflexivity.
  - vm_compute. reflexivity.
Defined.

(** ** Lookup, continued *)

Ltac catalog_cases He Hs :=
  unfold Entries in He;
  repeat (apply elem_of_cons in He as [-> | He]);
  [ | | | now apply elem_of_nil in He ];
  injection Hs as <-.

(** X9: a lookup of a name of the catalog whose object is not cached yet,
    when the host has no memory for an inode, returns the resolver's
    [ERR_PTR(-ENOMEM)]; the dentry and the cache are left as they were (the
    dentry is not made negative). *)
Theorem lookup_nomem (sb : super_block) (d : dentry) (e : Entry) (s : string) :
  e ∈ Entries →
  load_str (name e) = Ret s →
  d_name d = s →
  s_inodes sb !! ino e = None →
  s_avail sb = O →
  simplefs_lookup Entries sb d = Ret (ERR_dentry (- ENOMEM), d, sb).
Proof.
  intros He Hs Hd Hm Ha. destruct d as [nm di]. destruct sb as [m a].
  cbn [d_name s_inodes s_avail] in *. subst nm a.
  catalog_cases He Hs; cbn [ino] in Hm;
    rewrite lookup_via_find_by_name by reflexivity; cbn [d_name].
  - change (find_by_name Entries ".")
      with (Ret (Some (mkEntry (StrLit 0) 1 DT_DIR (StrLit 1)))).
    cbn [mbind outcome_bind ino]. now rewrite iget_nomem.
  - change (find_by_name Entries "..")
      with (Ret (Some (mkEntry (StrLit 2) 1 DT_DIR (StrLit 3)))).
    cbn [mbind outcome_bind ino]. now rewrite iget_nomem.
  - change (find_by_name Entries "message.txt")
      with (Ret (Some (mkEntry (StrLit 4) 2 DT_REG (StrLit 5)))).
    cbn [mbind outcome_bind ino]. now rewrite iget_nomem.
Qed.

Lemma lookup_nomem_witness :
  simplefs_lookup Entries (empty_sb 0) (mkDentry ".." NULL_inode) =
  Ret (ERR_dentry (- ENOMEM), mkDentry ".." NULL_inode, empty_sb 0).
Proof.
  apply (lookup_nomem (empty_sb 0) (mkDentry ".." NULL_inode)
           (mkEntry (StrLit 2) 1 DT_DIR (StrLit 3)) "..").
  - unfold Entries. apply list_elem_of_further, list_elem_of_here.
  - reflexivity.
  - reflexivity.
  - reflexivity.
  - reflexivity.
Defined.

(** X10: a lookup of the name of a catalog entry whose identity is not
    cached yet, with memory for an inode, attaches to the dentry the inode
    hashed under the entry's identity; the inode carries that identity as
    [i_ino] and is a directory exactly when the entry is one, a regular
    file exactly when the entry is one.  (So "." and ".." both lead to
    inode 1.) *)
Theorem lookup_attaches_entry (sb : super_block) (d : dentry) (e : Entry)
    (s : string) (a : nat) :
  e ∈ Entries →
  load_str (name e) = Ret s →
  d_name d = s →
  s_inodes sb !! ino e = None →
  s_avail sb = S a →
  ∃ i,
    simplefs_lookup Entries sb d =
      Ret (NULL_dentry, mkDentry s (InodeAt (ino e)),
           mkSb (<[ino e := i]> (s_inodes sb)) a) ∧
    i_ino i = ino e ∧
    S_ISDIR (i_mode i) = (type e =? DT_DIR) ∧
    S_ISREG (i_mode i) = (type e =? DT_REG).
Proof.
  intros He Hs Hd Hm Ha. destruct d as [nm di]. destruct sb as [m a'].
  cbn [d_name s_inodes s_avail] in *. subst nm a'.
  catalog_cases He Hs; cbn [ino type] in *;
    rewrite lookup_via_find_by_name by reflexivity; cbn [d_name].
  - exists (dir_inode 1).
    change (find_by_name Entries ".")
      with (Ret (Some (mkEntry (StrLit 0) 1 DT_DIR (StrLit 1)))).
    cbn [mbind outcome_bind ino].
    rewrite (iget_new_dir Entries m a 1 (mkEntry (StrLit 0) 1 DT_DIR (StrLit 1)))
      by done.
    repeat split.
  - exists (dir_inode 1).
    change (find_by_name Entries "..")
      with (Ret (Some (mkEntry (StrLit 2) 1 DT_DIR (StrLit 3)))).
    cbn [mbind outcome_bind ino].
    rewrite (iget_new_dir Entries m a 1 (mkEntry (StrLit 0) 1 DT_DIR (StrLit 1)))
      by done.
    repeat split.
  - exists message_inode.
    change (find_by_name Entries "message.txt")
      with (Ret (Some (mkEntry (StrLit 4) 2 DT_REG (StrLit 5)))).
    cbn [mbind outcome_bind ino].
    rewrite (iget_new_reg Entries m a 2 (mkEntry (StrLit 4) 2 DT_REG (StrLit 5))
               "Hello World!") by done.
    repeat split.
Qed.

Lemma lookup_attaches_entry_witness :
  ∃ i,
    simplefs_lookup Entries (empty_sb 1) (mkDentry ".." NULL_inode) =
      Ret (NULL_dentry, mkDentry ".." (InodeAt 1),
           mkSb (<[1 := i]> ∅) 0) ∧
    i_ino i = 1 ∧
    S_ISDIR (i_mode i) = (DT_DIR =? DT_DIR) ∧
    S_ISREG (i_mode i) = (DT_DIR =? DT_REG).
Proof.
  apply (lookup_attaches_entry (empty_sb 1) (mkDentry ".." NULL_inode)
           (mkEntry (StrLit 2) 1 DT_DIR (StrLit 3)) ".." 0).
  - unfold Entries. apply list_elem_of_further, list_elem_of_here.
  - reflexivity.
  - reflexivity.
  - reflexivity.
  - reflexivity.
Defined.

(** ** Enumeration, continued *)

Section ReaddirMore.

Context {Sink : Type}.

Lemma readdir_loop_accept f i amount (cxt : dir_context Sink) e s :
  (i <? 3) = true →
  load_entry Entries i = Ret e →
  load_str (name e) = Ret s →
  snd (actor cxt (sink cxt)
         (mkEmission s (wrap_s32 (strlen s)) (wrap_s64 (pos cxt + 1))
                     (ino e) (type e))) = true →
  readdir_loop (S f) Entries i amount cxt =
  readdir_loop f Entries (i + 1) (amount + 1)
    (mkCtx (actor cxt) (wrap_s64 (pos cxt + 1))
       (fst (actor cxt (sink cxt)
               (mkEmission s (wrap_s32 (strlen s)) (wrap_s64 (pos cxt + 1))
                           (ino e) (type e))))).
Proof.
  intros Hi He Hs Hok. cbn [readdir_loop]. rewrite Hi, He.
  cbn [mbind outcome_bind]. rewrite Hs. cbn [mbind outcome_bind].
  unfold dir_emit, set_pos. cbn [actor sink pos].
  destruct (actor cxt (sink cxt) _) as [snk ok]. cbn [fst snd] in *.
  now subst ok.
Qed.

End ReaddirMore.

(** X11: with a sink that takes every entry it is offered, a call from a
    cursor between 0 and 3 offers the sink the entries of the catalog from
    the cursor on, in catalog order and each once, with the cursor after
    the entry as its offset; it returns their number and leaves the cursor
    at 3. *)
Theorem readdir_lists_rest {Sink : Type} (cxt : dir_context Sink) :
  (∀ s em, snd (actor cxt s em) = true) →
  0 <= pos cxt <= 3 →
  simplefs_readdir Entries cxt =
  Ret (3 - pos cxt,
       mkCtx (actor cxt) 3
         (feed (actor cxt) (sink cxt) (drop (Z.to_nat (pos cxt)) listing))).
Proof.
  destruct cxt as [act p snk]. cbn [actor pos sink]. intros Hacc Hp.
  unfold simplefs_readdir. cbn [pos].
  assert (p = 0 ∨ p = 1 ∨ p = 2 ∨ p = 3) as [-> | [-> | [-> | ->]]] by lia.
  - change (wrap_s32 0) with 0.
    rewrite (readdir_loop_accept 2 0 0 _ (mkEntry (StrLit 0) 1 DT_DIR (StrLit 1))
               ".") by (reflexivity || apply Hacc).
    rewrite (readdir_loop_accept 1 _ _ _ (mkEntry (StrLit 2) 1 DT_DIR (StrLit 3))
               "..") by (reflexivity || apply Hacc).
    rewrite (readdir_loop_accept 0 _ _ _ (mkEntry (StrLit 4) 2 DT_REG (StrLit 5))
               "message.txt") by (reflexivity || apply Hacc).
    reflexivity.
  - change (wrap_s32 1) with 1.
    rewrite (readdir_loop_accept 2 1 0 _ (mkEntry (StrLit 2) 1 DT_DIR (StrLit 3))
               "..") by (reflexivity || apply Hacc).
    rewrite (readdir_loop_accept 1 _ _ _ (mkEntry (StrLit 4) 2 DT_REG (StrLit 5))
               "message.txt") by (reflexivity || apply Hacc).
    reflexivity.
  - change (wrap_s32 2) with 2.
    rewrite (readdir_loop_accept 2 2 0 _ (mkEntry (StrLit 4) 2 DT_REG (StrLit 5))
               "message.txt") by (reflexivity || apply Hacc).
    reflexivity.
  - reflexivity.
Qed.

Lemma readdir_lists_rest_witness :
  simplefs_readdir Entries (collect_ctx 1) =
  Ret (3 - 1,
       mkCtx collect_actor 3
         (feed collect_actor [] (drop (Z.to_nat 1) listing))).
Proof.
  apply (readdir_lists_rest (collect_ctx 1)).
  - intros s em. reflexivity.
  - cbn [pos collect_ctx]. lia.
Defined.

(** X12: for every sink, a call from a cursor between 0 and 3 returns, the
    count it returns is exactly the distance the cursor has moved, and the
    cursor is still between 0 and 3 afterwards; so the calls of an
    enumeration that starts at 0 all start from such a cursor. *)
Theorem readdir_count_is_advance {Sink : Type} (cxt : dir_context Sink) :
  0 <= pos cxt <= 3 →
  ∃ amount cxt',
    simplefs_readdir Entries cxt = Ret (amount, cxt') ∧
    amount = pos cxt' - pos cxt ∧
    0 <= amount ∧
    0 <= pos cxt' <= 3.
Proof.
  intros Hp. unfold simplefs_readdir. rewrite wrap_s32_id by lia.
  destruct (readdir_loop_progress 3 (pos cxt) 0 cxt)
    as (amount & cxt' & Hr & Hd & Hb & _); try lia.
  exists amount, cxt'. split; [exact Hr|]. lia.
Qed.

Lemma readdir_count_is_advance_witness :
  ∃ amount cxt',
    simplefs_readdir Entries (bounded_ctx 1 1) = Ret (amount, cxt') ∧
    amount = pos cxt' - pos (bounded_ctx 1 1) ∧
    0 <= amount ∧
    0 <= pos cxt' <= 3.
Proof.
  apply (readdir_count_is_advance (bounded_ctx 1 1)).
  cbn [pos bounded_ctx]. lia.
Defined.

(** X13: a cursor that is negative as a C [int] makes the loop read
    [Entries[i]] before the start of the table: the call is undefined,
    whatever the catalog and the sink. *)
Theorem readdir_negative_cursor {Sink : Type} (tbl : list Entry)
    (cxt : dir_context Sink) :
  - 2 ^ 31 <= pos cxt < 0 →
  simplefs_readdir tbl cxt = Undef.
Proof.
  intros Hp. unfold simplefs_readdir. rewrite wrap_s32_id by lia.
  cbn [readdir_loop].
  destruct (Z.ltb_spec (pos cxt) 3); [|lia].
  unfold load_entry. destruct (Z.ltb_spec (pos cxt) 0); [reflexivity|lia].
Qed.

Lemma readdir_negative_cursor_witness :
  simplefs_readdir Entries (bounded_ctx (-1) 4) = Undef.
Proof.
  apply (readdir_negative_cursor Entries (bounded_ctx (-1) 4)).
  cbn [pos bounded_ctx]. lia.
Defined.

(** ** Module life cycle, continued *)

Lemma filter_out_appended (nm : string) (l : list string) :
  nm ∉ l → filter (fun x => x ≠ nm) (l ++ [nm]) = l.
Proof.
  induction l as [|x l IH]; intros Hn; cbn [app].
  - rewrite filter_cons_False by (intros H; now apply H). reflexivity.
  - apply not_elem_of_cons in Hn as [Hx Hl].
    rewrite filter_cons_True by (intros ->; now apply Hx).
    f_equal. now apply IH.
Qed.

(** X14: loading and unloading the module is a round trip on the host's
    list of file systems: when the name "simplefs" is free, [simplefs_init]
    registers it and records success, and [simplefs_exit] afterwards
    leaves the list as it was before the load; the log has gained the
    "loaded" and the "unloaded" line, in this order. *)
Theorem init_exit_roundtrip (m : machine) :
  fs_name ∉ file_systems (host m) →
  ret (simplefs_init m).2 = 0 ∧
  file_systems (host (simplefs_init m).2) = file_systems (host m) ++ [fs_name] ∧
  file_systems (host (simplefs_exit (simplefs_init m).2)) =
    file_systems (host m) ∧
  klog (host (simplefs_exit (simplefs_init m).2)) =
    klog (host m) ++ ["filesystem module loaded"%string;
                      "filesystem module unloaded"%string].
Proof.
  intros Hfree. destruct m as [r [fs lg]]. cbn [host file_systems klog] in *.
  unfold simplefs_init, register_filesystem. cbn [host file_systems klog].
  rewrite bool_decide_eq_false_2 by exact Hfree.
  cbn [ret]. change (lnot 0) with true. cbv iota.
  unfold simplefs_exit, pr_info, unregister_filesystem.
  cbn [ret host file_systems klog snd]. change (lnot 0) with true. cbv iota.
  rewrite bool_decide_eq_true_2 by (apply elem_of_app; right; apply list_elem_of_here).
  cbn [snd ret host file_systems klog].
  rewrite filter_out_appended by exact Hfree.
  rewrite <- app_assoc. repeat split.
Qed.

Lemma init_exit_roundtrip_witness :
  let m := mkMachine 0 (mkKernel ["ext4"%string] []) in
  ret (simplefs_init m).2 = 0 ∧
  file_systems (host (simplefs_init m).2) = file_systems (host m) ++ [fs_name] ∧
  file_systems (host (simplefs_exit (simplefs_init m).2)) =
    file_systems (host m) ∧
  klog (host (simplefs_exit (simplefs_init m).2)) =
    klog (host m) ++ ["filesystem module loaded"%string;
                      "filesystem module unloaded"%string].
Proof.
  cbv zeta.
  apply (init_exit_roundtrip (mkMachine 0 (mkKernel ["ext4"%string] []))).
  cbn [host file_systems]. intros H.
  apply elem_of_cons in H as [H | H]; [discriminate | now apply elem_of_nil in H].
Defined.

(** ** From mount to content *)

(** X15: the operations compose.  On a mount whose cache holds neither
    inode 1 nor inode 2, with memory for two inodes and a dentry:
    [simplefs_fill_super] succeeds; on the cache it leaves, the lookup of
    "message.txt" attaches inode 2 to the dentry; and on the cache that
    leaves, the read of a page of that inode at an index of at most 12
    returns 0 with the page ready, "Hello World!" at its start and the
    rest of the buffer as before. *)
Theorem mount_lookup_read (m : mount) (a k : nat) (pg : page) :
  s_inodes (m_sb m) !! 1 = None →
  s_inodes (m_sb m) !! 2 = None →
  s_avail (m_sb m) = S (S a) →
  d_avail m = S k →
  mapping_host pg = InodeAt 2 →
  Z.of_nat (length (data pg)) = PAGE_SIZE →
  index pg <= 12 →
  ∃ m1 sb2 pg',
    simplefs_fill_super Entries m = Ret (0, m1) ∧
    simplefs_lookup Entries (m_sb m1) (mkDentry "message.txt" NULL_inode) =
      Ret (NULL_dentry, mkDentry "message.txt" (mapping_host pg), sb2) ∧
    simplefs_readpage sb2 pg = Ret (0, pg') ∧
    data pg' = list_byte_of_string "Hello World!" ++ drop 12 (data pg) ∧
    PG_uptodate pg' = true ∧ PG_locked pg' = false.
Proof.
  destruct m as [[c av] r d]. cbn [m_sb s_inodes s_avail d_avail].
  intros H1 H2 -> -> Hmap Hlen Hidx.
  assert (Hbuf : 12 <= Z.of_nat (length (data pg)))
    by (rewrite Hlen; unfold PAGE_SIZE; lia).
  eexists (mkMount (mkSb (<[1 := dir_inode 1]> c) (S a))
                   (Some (mkDentry "/" (InodeAt 1))) k),
          (mkSb (<[2 := message_inode]> (<[1 := dir_inode 1]> c)) a), _.
  split; [|split; [|split]].
  - unfold simplefs_fill_super. cbn [m_sb s_root d_avail].
    rewrite (iget_new_dir Entries c (S a) 1
               (mkEntry (StrLit 0) 1 DT_DIR (StrLit 1))) by done.
    cbn [mbind outcome_bind]. unfold d_make_root.
    cbn [is_NULL m_sb d_avail s_root].
    rewrite (load_inode_at _ _ (dir_inode 1)) by apply lookup_insert_eq.
    reflexivity.
  - cbn [m_sb]. rewrite lookup_via_find_by_name by reflexivity. cbn [d_name].
    change (find_by_name Entries "message.txt")
      with (Ret (Some (mkEntry (StrLit 4) 2 DT_REG (StrLit 5)))).
    cbn [mbind outcome_bind ino].
    rewrite (iget_new_reg Entries _ a 2 (mkEntry (StrLit 4) 2 DT_REG (StrLit 5))
               "Hello World!") by (reflexivity || now rewrite lookup_insert_ne).
    rewrite Hmap. reflexivity.
  - unfold simplefs_readpage. rewrite Hmap.
    rewrite (load_inode_at _ _ message_inode) by apply lookup_insert_eq.
    cbn [mbind outcome_bind]. rewrite message_size_u64.
    apply Z.ltb_ge in Hidx. rewrite Hidx.
    rewrite memcpy_message by done. reflexivity.
  - repeat split.
Qed.

Lemma mount_lookup_read_witness :
  ∃ m1 sb2 pg',
    simplefs_fill_super Entries (mkMount (empty_sb 2) None 1) = Ret (0, m1) ∧
    simplefs_lookup Entries (m_sb m1) (mkDentry "message.txt" NULL_inode) =
      Ret (NULL_dentry,
           mkDentry "message.txt" (mapping_host (blank_page 0)), sb2) ∧
    simplefs_readpage sb2 (blank_page 0) = Ret (0, pg') ∧
    data pg' = list_byte_of_string "Hello World!" ++
               drop 12 (data (blank_page 0)) ∧
    PG_uptodate pg' = true ∧ PG_locked pg' = false.
Proof.
  apply (mount_lookup_read (mkMount (empty_sb 2) None 1) 0 0 (blank_page 0)).
  - reflexivity.
  - reflexivity.
  - reflexivity.
  - reflexivity.
  - reflexivity.
  - vm_compute. reflexivity.
  - cbn [index blank_page]. lia.
Defined.
